(** * GraphRAG indexing and query pipeline: a shallow embedding

    The development follows [src/graph_pipeline.py],
    [scripts/run_indexing.py] and [scripts/run_query.py].  Python strings are modelled as [string],
    every character being a code point below 256.  Dictionaries whose
    iteration order is observable (the adjacency structure of a
    [networkx.Graph]) are association lists kept in insertion order. *)

From Stdlib Require Import List String Ascii Bool Arith Lia Permutation DecimalString.
Import ListNotations.
Open Scope string_scope.
Open Scope list_scope.

(** ** Characters and strings *)

Module Str.

(** [str.isspace] / the class [\s] of [re] on code points below 256:
    9..13, 28..32, 133 and 160. *)
Definition is_space (c : ascii) : bool :=
  let n := nat_of_ascii c in
  (((9 <=? n) && (n <=? 13)) || ((28 <=? n) && (n <=? 32))
   || (n =? 133) || (n =? 160))%nat.

(** The only character that [.] refuses and that delimits lines for
    [^] and [$] under [re.MULTILINE]. *)
Definition is_newline (c : ascii) : bool := Ascii.eqb c "010"%char.

Definition is_empty (s : string) : bool :=
  match s with EmptyString => true | String _ _ => false end.

Fixpoint lstrip (s : string) : string :=
  match s with
  | EmptyString => EmptyString
  | String c s' => if is_space c then lstrip s' else s
  end.

Fixpoint rstrip (s : string) : string :=
  match s with
  | EmptyString => EmptyString
  | String c s' =>
      let r := rstrip s' in
      if is_space c && is_empty r then EmptyString else String c r
  end.

(** [s.strip()] *)
Definition strip (s : string) : string := rstrip (lstrip s).

(** [sub in s] *)
Fixpoint contains (sub s : string) : bool :=
  String.prefix sub s ||
  match s with
  | EmptyString => false
  | String _ s' => contains sub s'
  end.


(** [in] on a list of strings *)
Fixpoint mem (x : string) (l : list string) : bool :=
  match l with
  | [] => false
  | y :: l' => String.eqb x y || mem x l'
  end.

End Str.

(** ** The relationship pattern

    [rel_pattern = re.compile(r"^\s*-\s*(.+?)\s*->\s*(.+?)\s*->\s*(.+?)\s*$",
    re.MULTILINE)].  The backtracking matcher of [re] is written in
    continuation-passing style: every combinator receives the matcher
    of the rest of the pattern and tries its own alternatives in the
    order of the engine (longest first for the greedy [\s*], shortest
    first for the lazy [.+?]). *)

Module Re.

Import Str.

Section Combinators.
Context {R : Type}.

(** [\s*], greedy. *)
Fixpoint ws_star (k : string -> option R) (s : string) : option R :=
  match s with
  | String c s' =>
      if is_space c then
        match ws_star k s' with
        | Some r => Some r
        | None => k s
        end
      else k s
  | EmptyString => k s
  end.

(** A literal character. *)
Definition lit (c : ascii) (k : string -> option R) (s : string) : option R :=
  match s with
  | String c' s' => if Ascii.eqb c c' then k s' else None
  | EmptyString => None
  end.

(** The literal [->]. *)
Definition arrow (k : string -> option R) : string -> option R :=
  lit "-"%char (lit ">"%char k).

(** [(.+?)]: a lazy capture group of one or more characters other
    than a newline; [acc] is what the group holds so far. *)
Fixpoint dot_plus_lazy (k : string -> string -> option R)
         (acc : string) (s : string) : option R :=
  match s with
  | String c s' =>
      if is_newline c then None
      else
        let acc' := (acc ++ String c EmptyString)%string in
        match k acc' s' with
        | Some r => Some r
        | None => dot_plus_lazy k acc' s'
        end
  | EmptyString => None
  end.

(** [$] under [re.MULTILINE]: the end of the string or just before a
    newline. *)
Definition eol (k : string -> option R) (s : string) : option R :=
  match s with
  | EmptyString => k s
  | String c _ => if is_newline c then k s else None
  end.
End Combinators.

(** A match object: the three groups. *)
Record Match := mkMatch { group1 : string; group2 : string; group3 : string }.

(** The pattern after its leading [^], tried at one position: the match
    and the text left after it. *)
Definition rel_pattern_at (s : string) : option (Match * string) :=
  ws_star (lit "-"%char (ws_star (dot_plus_lazy (fun g1 =>
  ws_star (arrow (ws_star (dot_plus_lazy (fun g2 =>
  ws_star (arrow (ws_star (dot_plus_lazy (fun g3 =>
  ws_star (eol (fun rest => Some (mkMatch g1 g2 g3, rest))))
  EmptyString)))) EmptyString)))) EmptyString))) s.

(** [rel_pattern.finditer(s)]: the scan moves left to right; [bol]
    says that [^] holds here (start of the text or just after a
    newline) and [skip] counts the characters still covered by the
    previous match, inside which no match starts. *)
Fixpoint finditer_from (bol : bool) (skip : nat) (s : string) : list Match :=
  match s with
  | EmptyString => []
  | String c s' =>
      match skip with
      | S n => finditer_from (is_newline c) n s'
      | O =>
          match (if bol then rel_pattern_at s else None) with
          | Some (m, rest) =>
              m :: finditer_from (is_newline c)
                     (String.length s - String.length rest - 1) s'
          | None => finditer_from (is_newline c) 0 s'
          end
      end
  end.

Definition finditer (s : string) : list Match := finditer_from true 0 s.

End Re.

(** ** Dictionaries with string keys, in insertion order *)

Module Dict.

Section Dict.
Context {V : Type}.

Definition dict := list (string * V).

(** [d.get(k)] *)
Fixpoint get (k : string) (d : dict) : option V :=
  match d with
  | [] => None
  | (k', v) :: d' => if String.eqb k k' then Some v else get k d'
  end.

(** [d[k] = v]: an existing key keeps its place, a new key goes last. *)
Fixpoint set (k : string) (v : V) (d : dict) : dict :=
  match d with
  | [] => [(k, v)]
  | (k', v') :: d' =>
      if String.eqb k k' then (k, v) :: d' else (k', v') :: set k v d'
  end.

Definition keys (d : dict) : list string := map fst d.

End Dict.

Arguments dict V : clear implicits.

End Dict.

(** ** The undirected graph of [networkx]

    A [networkx.Graph] keeps [_adj], a dictionary from each node to the
    dictionary of its neighbours; the value stored for a neighbour is
    the attribute dictionary of the edge, which in this program holds
    the single key [label]. *)

Module Nx.

Definition Graph := Dict.dict (Dict.dict string).

(** [nx.Graph()] *)
Definition empty : Graph := [].

(** [list(G.nodes)] *)
Definition nodes (G : Graph) : list string := Dict.keys G.

(** [n in G] *)
Definition has_node (n : string) (G : Graph) : bool := Str.mem n (nodes G).

(** [G._adj[n]], empty for a name that is no node. *)
Definition adj (G : Graph) (n : string) : Dict.dict string :=
  match Dict.get n G with Some a => a | None => [] end.

(** The label of the edge between [u] and [v] as seen from [u]:
    [G[u][v]["label"]]. *)
Definition edge_label (G : Graph) (u v : string) : option string :=
  Dict.get v (adj G u).

(** [G.add_node(n)] *)
Definition add_node (n : string) (G : Graph) : Graph :=
  if has_node n G then G else G ++ [(n, [])].

(** [G._adj[u][v] = {"label": label}] *)
Definition set_adj (u v label : string) (G : Graph) : Graph :=
  Dict.set u (Dict.set v label (adj G u)) G.

(** [G.add_edge(u, v, label=label)]: both endpoints are inserted when
    absent, then the attribute is written on both sides. *)
Definition add_edge (u v label : string) (G : Graph) : Graph :=
  let G1 := add_node u G in
  let G2 := add_node v G1 in
  set_adj v u label (set_adj u v label G2).

(** *** Sets

    A Python [set] is represented by the list of its elements without
    repetition; the order in which the set is iterated is not
    specified by the language and is the parameter [set_iter] of the
    operations below. *)

Definition set_of (set_iter : list string -> list string) (l : list string)
  : list string :=
  set_iter (nodup string_dec l).

(** *** Connected components *)

Definition add_new (seen : list string) (w : string) : list string :=
  if Str.mem w seen then seen else seen ++ [w].

(** One level of the breadth-first search: every neighbour of a seen
    node becomes seen. *)
Definition expand (G : Graph) (seen : list string) : list string :=
  fold_left add_new (flat_map (fun v => Dict.keys (adj G v)) seen) seen.

Fixpoint grow (rounds : nat) (G : Graph) (seen : list string) : list string :=
  match rounds with
  | O => seen
  | S r => grow r G (expand G seen)
  end.

(** [_plain_bfs(G, n, source)]: the set of nodes reachable from
    [source], found level by level; a graph of [n] nodes needs at most
    [n] levels ([ComponentFacts.plain_bfs_spec]). *)
Definition plain_bfs (G : Graph) (source : string) : list string :=
  grow (List.length G) G [source].

(** The loop of [nx.connected_components(G)] over the nodes of [G]. *)
Fixpoint components_loop (G : Graph) (vs seen : list string)
  : list (list string) :=
  match vs with
  | [] => []
  | v :: vs' =>
      if Str.mem v seen then components_loop G vs' seen
      else
        let c := plain_bfs G v in
        c :: components_loop G vs' (seen ++ c)
  end.

(** [nx.connected_components(G)]: the components, each one a set, in
    the order of their first node in [G]. *)
Definition connected_components (G : Graph) : list (list string) :=
  components_loop G (nodes G) [].

(** *** Induced subgraph views *)

(** [list(G.subgraph(nbunch).nodes)]: the nodes of [nbunch] that are
    in [G]; a view over fewer than half of the nodes is iterated in
    the order of its node set, any other in the order of [G]. *)
Definition view_nodes (set_iter : list string -> list string)
           (G : Graph) (nbunch : list string) : list string :=
  let ok := set_of set_iter (filter (fun n => has_node n G) nbunch) in
  if (2 * List.length ok <? List.length G)%nat then ok
  else filter (fun n => Str.mem n ok) (nodes G).

(** The neighbours of [n] inside the view. *)
Definition view_adj (G : Graph) (ok : list string) (n : string)
  : Dict.dict string :=
  filter (fun e => Str.mem (fst e) ok) (adj G n).

(** The loop of [EdgeDataView.__iter__]: an edge is reported from the
    endpoint met first, [seen] holding the nodes already done. *)
Fixpoint edges_loop (G : Graph) (ok ns seen : list string)
  : list (string * string * string) :=
  match ns with
  | [] => []
  | n :: ns' =>
      map (fun e => (n, fst e, snd e))
          (filter (fun e => negb (Str.mem (fst e) seen)) (view_adj G ok n))
      ++ edges_loop G ok ns' (n :: seen)
  end.

(** [G.subgraph(nbunch).edges(data=True)] as triples
    [(u, v, data["label"])]. *)
Definition subgraph_edges (set_iter : list string -> list string)
           (G : Graph) (nbunch : list string)
  : list (string * string * string) :=
  let ns := view_nodes set_iter G nbunch in
  edges_loop G ns ns [].

(** *** Well-formed graphs and connectivity *)

(** [v] is a neighbour of [u]. *)
Definition adjacent (G : Graph) (u v : string) : Prop :=
  In v (Dict.keys (adj G u)).

(** What every [networkx.Graph] satisfies: the keys of its
    dictionaries are distinct and an edge is stored with the same
    label on both of its endpoints. *)
Record wf_graph (G : Graph) : Prop := mk_wf {
  wf_nodes : NoDup (nodes G);
  wf_adj : forall u, NoDup (Dict.keys (adj G u));
  wf_sym : forall u v l, edge_label G u v = Some l -> edge_label G v u = Some l
}.

(** [u] and [v] are joined by a path. *)
Inductive connected (G : Graph) (u : string) : string -> Prop :=
| connected_refl : connected G u u
| connected_step v w : connected G u v -> adjacent G v w -> connected G u w.

(** A set of nodes that no edge leaves. *)
Definition closed (G : Graph) (S : list string) : Prop :=
  forall y x, In y S -> adjacent G y x -> In x S.

End Nx.

(** ** The indexing pipeline: [src/graph_pipeline.py] *)

Module Pipeline.

Import Str.

(** *** [extract_entities_relationships] *)

Definition nl : string := String "010"%char EmptyString.

Definition ENTITY_EXTRACTION_PROMPT : string :=
  (nl ++ "Extract all entities and their relationships from the text." ++ nl
   ++ "Respond in the following format, and only this format:" ++ nl ++ nl
   ++ "Entities:" ++ nl ++ "- <Entity 1>" ++ nl ++ "- <Entity 2>" ++ nl ++ "..." ++ nl ++ nl
   ++ "Relationships:" ++ nl
   ++ "- <Entity 1> -> <Relationship> -> <Entity 2>" ++ nl
   ++ "- <Entity 3> -> <Relationship> -> <Entity 4>" ++ nl ++ "..." ++ nl)%string.

(** The sentinel that [extract_entities_relationships] appends for a
    chunk whose model call raised. *)
Definition EXTRACTION_SENTINEL : string := "Error: Failed to extract elements.".

Section Extract.
(** The handler of the language model: [get_response] answers or
    raises ([None]) and may change the state of the handler. *)
Variable LLM : Type.
Variable get_response : LLM -> string -> string -> option string * LLM.

(** The body of the loop over the text units. *)
Definition extract_one (st : list string * LLM) (chunk : string)
  : list string * LLM :=
  let (elements, llm) := st in
  match get_response llm ENTITY_EXTRACTION_PROMPT chunk with
  | (Some response, llm') => (elements ++ [response], llm')
  | (None, llm') => (elements ++ [EXTRACTION_SENTINEL], llm')
  end.

Definition extract_entities_relationships (text_units : list string) (llm : LLM)
  : list string * LLM :=
  fold_left extract_one text_units ([], llm).
End Extract.

(** *** [build_knowledge_graph] *)

(** The body of the loop over the matches of one summary. *)
Definition add_match (G : Nx.Graph) (m : Re.Match) : Nx.Graph :=
  let source := strip (Re.group1 m) in
  let relation := strip (Re.group2 m) in
  let target := strip (Re.group3 m) in
  if is_empty source || is_empty relation || is_empty target then G
  else Nx.add_edge source target relation (Nx.add_node target (Nx.add_node source G)).

(** The body of the loop over the summaries. *)
Definition add_summary (G : Nx.Graph) (summary : string) : Nx.Graph :=
  if negb (contains "Relationships:" summary) then G
  else fold_left add_match (Re.finditer summary) G.

Definition build_knowledge_graph (element_summaries : list string) : Nx.Graph :=
  fold_left add_summary element_summaries Nx.empty.

(** *** Triples

    The loop body of [build_knowledge_graph] reads a triple off each
    match and discards the match when a field is empty after
    trimming. *)

Record Triple := mkTriple { source : string; relation : string; target : string }.

Definition malformed (m : Re.Match) : bool :=
  is_empty (strip (Re.group1 m)) || is_empty (strip (Re.group2 m))
  || is_empty (strip (Re.group3 m)).

Definition triple_of_match (m : Re.Match) : Triple :=
  mkTriple (strip (Re.group1 m)) (strip (Re.group2 m)) (strip (Re.group3 m)).

(** The triples one summary contributes, in match order. *)
Definition triples_of_summary (summary : string) : list Triple :=
  if contains "Relationships:" summary
  then map triple_of_match (filter (fun m => negb (malformed m)) (Re.finditer summary))
  else [].

(** The ordered sequence of triples extracted across all summaries. *)
Definition parsed_triples (element_summaries : list string) : list Triple :=
  flat_map triples_of_summary element_summaries.

Definition add_triple (G : Nx.Graph) (t : Triple) : Nx.Graph :=
  Nx.add_edge (source t) (target t) (relation t)
    (Nx.add_node (target t) (Nx.add_node (source t) G)).

(** [t] writes the edge between [a] and [b], in either orientation. *)
Definition touches (a b : string) (t : Triple) : bool :=
  (String.eqb (source t) a && String.eqb (target t) b)
  || (String.eqb (source t) b && String.eqb (target t) a).

(** The last triple of the sequence that writes the edge between [a]
    and [b]. *)
Definition last_writer (a b : string) (ts : list Triple) : option Triple :=
  find (touches a b) (rev ts).

(** *** [detect_communities] *)

(** The graph handed to [leidenalg]: [vcount] vertices numbered from
    0; [vs_attrs] maps the name of each vertex attribute to its
    values, one per vertex; the edges join vertex numbers and carry
    their labels. *)
Record IGraph := mkIGraph {
  vcount : nat;
  vs_attrs : Dict.dict (list string);
  es : list (nat * nat);
  es_label : list string
}.

Fixpoint index_of (x : string) (l : list string) : nat :=
  match l with
  | [] => 0
  | y :: l' => if String.eqb x y then 0 else S (index_of x l')
  end.

(** [ig.Graph.from_networkx(graph.subgraph(nbunch))]: the vertices are
    the nodes of the view in its order and the node names are stored
    under the vertex attribute [_nx_name].  The nodes of the graphs of
    this program carry no attribute of their own, so this is the only
    vertex attribute. *)
Definition from_networkx (set_iter : list string -> list string)
           (G : Nx.Graph) (nbunch : list string) : IGraph :=
  let vnames := Nx.view_nodes set_iter G nbunch in
  let edges := Nx.subgraph_edges set_iter G nbunch in
  mkIGraph (List.length vnames) [("_nx_name", vnames)]
    (map (fun e => (index_of (fst (fst e)) vnames, index_of (snd (fst e)) vnames)) edges)
    (map snd edges).

(** [v[attr]] for the vertex of number [i]; [None] is the [KeyError]
    of an attribute that does not exist. *)
Definition vertex_attr (g : IGraph) (attr : string) (i : nat) : option string :=
  match Dict.get attr (vs_attrs g) with
  | Some values => nth_error values i
  | None => None
  end.

(** [str(e)] of that [KeyError]. *)
Definition ATTRIBUTE_ERROR : string := "'Attribute does not exist'".

(** [[v["name"] for v in vs]] over the vertices of the given numbers. *)
Fixpoint vertex_names (g : IGraph) (indices : list nat) : option (list string) :=
  match indices with
  | [] => Some []
  | i :: rest =>
      match vertex_attr g "name" i with
      | None => None
      | Some name =>
          match vertex_names g rest with
          | None => None
          | Some names => Some (name :: names)
          end
      end
  end.

(** [{v.index: v["name"] for v in subgraph_ig.vs}], the dictionary
    being the list of its values in the order of the vertex numbers. *)
Definition int_to_name_map (g : IGraph) : option (list string) :=
  vertex_names g (seq 0 (vcount g)).

(** [[int_to_name_map[node_id] for node_id in int_community]]; [None]
    is the [KeyError] of an identifier that is no vertex. *)
Fixpoint named_community (int_to_name_map : list string)
         (int_community : list nat) : option (list string) :=
  match int_community with
  | [] => Some []
  | node_id :: rest =>
      match nth_error int_to_name_map node_id with
      | None => None
      | Some name =>
          match named_community int_to_name_map rest with
          | None => None
          | Some names => Some (name :: names)
          end
      end
  end.

(** The loop over the partition inside the [try]: the communities
    appended so far stay appended when a later one raises; the flag is
    [false] when the loop raised. *)
Fixpoint append_named (int_to_name_map : list string)
         (partition : list (list nat)) (all_communities : list (list string))
  : list (list string) * bool :=
  match partition with
  | [] => (all_communities, true)
  | int_community :: rest =>
      match named_community int_to_name_map int_community with
      | Some named => append_named int_to_name_map rest (all_communities ++ [named])
      | None => (all_communities, false)
      end
  end.

Section Detect.
(** The iteration order of sets and [leidenalg.find_partition] with
    [ModularityVertexPartition]; [None] stands for a raised exception. *)
Variable set_iter : list string -> list string.
Variable find_partition : IGraph -> option (list (list nat)).

(** The [except] branch. *)
Definition fallback (all_communities : list (list string))
           (component : list string) : list (list string) :=
  if (0 <? List.length component)%nat
  then all_communities ++ [set_iter component]
  else all_communities.

(** The body of the loop over the connected components: [inl] is the
    list of communities after the component, [inr] the message of an
    exception that leaves the function.  The dictionary of names is
    built before the [try], so what it raises is not caught. *)
Definition detect_component (G : Nx.Graph)
           (all_communities : list (list string)) (component : list string)
  : list (list string) + string :=
  let subgraph_ig := from_networkx set_iter G (set_iter component) in
  match int_to_name_map subgraph_ig with
  | None => inr ATTRIBUTE_ERROR
  | Some names =>
      inl match find_partition subgraph_ig with
          | Some partition =>
              match append_named names partition all_communities with
              | (all', true) => all'
              | (all', false) => fallback all' component
              end
          | None => fallback all_communities component
          end
  end.

(** The loop stops at the first component that raises. *)
Definition detect_step (G : Nx.Graph)
           (state : list (list string) + string) (component : list string)
  : list (list string) + string :=
  match state with
  | inl all_communities => detect_component G all_communities component
  | inr e => inr e
  end.

Definition detect_communities (graph : Nx.Graph) : list (list string) + string :=
  fold_left (detect_step graph) (Nx.connected_components graph) (inl []).
End Detect.

(** *** [summarize_communities] *)

Definition SUMMARY_SENTINEL : string := "Error: Failed to generate summary.".

(** [COMMUNITY_SUMMARY_PROMPT.format(community_data=community_data)] *)
Definition COMMUNITY_SUMMARY_PROMPT (community_data : string) : string :=
  (nl ++ "Based on the following entities and relationships from a text community, write a concise, one-paragraph summary that captures the main topic of this community."
   ++ nl ++ nl ++ "Data:" ++ nl ++ community_data ++ nl ++ nl ++ "Summary:" ++ nl)%string.

Definition entity_line (node : string) : string :=
  ("- " ++ node ++ nl)%string.

Definition relationship_line (e : string * string * string) : string :=
  ("- " ++ fst (fst e) ++ " -> " ++ snd e ++ " -> " ++ snd (fst e) ++ nl)%string.


(** The text [community_data] built for one community. *)
Definition community_data (set_iter : list string -> list string)
           (graph : Nx.Graph) (community_nodes : list string) : string :=
  let data := ("Entities:" ++ nl)%string in
  let data := fold_left (fun d node => (d ++ entity_line node)%string) community_nodes data in
  let data := (data ++ nl ++ "Relationships:" ++ nl)%string in
  fold_left (fun d e => (d ++ relationship_line e)%string)
            (Nx.subgraph_edges set_iter graph community_nodes) data.

Record CommunitySummaryRecord := mkRecord {
  community_id : nat;
  nodes : list string;
  summary : string
}.

Section Summarize.
Variable set_iter : list string -> list string.
(** The handler of the language model: [get_response] answers or
    raises ([None]) and may change the state of the handler. *)
Variable LLM : Type.
Variable get_response : LLM -> string -> string -> option string * LLM.

(** The body of the loop for community [i]. *)
Definition summarize_one (graph : Nx.Graph)
           (st : list CommunitySummaryRecord * LLM)
           (item : nat * list string) : list CommunitySummaryRecord * LLM :=
  let (community_summaries, llm) := st in
  let (i, community_nodes) := item in
  let data := community_data set_iter graph community_nodes in
  match get_response llm (COMMUNITY_SUMMARY_PROMPT data) "" with
  | (Some text, llm') =>
      (community_summaries ++ [mkRecord i community_nodes text], llm')
  | (None, llm') =>
      (community_summaries ++ [mkRecord i community_nodes SUMMARY_SENTINEL], llm')
  end.

(** [enumerate(l)] from [start]. *)
Definition enumerate {A : Type} (start : nat) (l : list A) : list (nat * A) :=
  combine (seq start (List.length l)) l.

Definition summarize_communities (communities : list (list string))
           (graph : Nx.Graph) (llm : LLM) : list CommunitySummaryRecord * LLM :=
  fold_left (summarize_one graph) (enumerate 0 communities) ([], llm).

(** The summary text kept for what [get_response] did. *)
Definition summary_of (response : option string) : string :=
  match response with
  | Some text => text
  | None => SUMMARY_SENTINEL
  end.

(** The handler as it stands when the community at position [i] is
    reached: after the calls for the communities before it. *)
Definition llm_before (communities : list (list string)) (graph : Nx.Graph)
           (llm : LLM) (i : nat) : LLM :=
  snd (summarize_communities (firstn i communities) graph llm).
End Summarize.

End Pipeline.

(** ** The query stage: [scripts/run_query.py] *)

Module Query.

(** What [json.load] can return; a number is taken to be a natural
    number. *)
#[local] Unset Elimination Schemes.
Inductive Json :=
| JNull
| JBool (b : bool)
| JNum (n : nat)
| JStr (s : string)
| JArr (items : list Json)
| JObj (members : list (string * Json)).
#[local] Set Elimination Schemes.

(** [bool(v)] *)
Definition truthy (v : Json) : bool :=
  match v with
  | JNull => false
  | JBool b => b
  | JNum n => negb (Nat.eqb n 0)
  | JStr s => negb (Str.is_empty s)
  | JArr items => match items with [] => false | _ => true end
  | JObj members => match members with [] => false | _ => true end
  end.

(** [len(v)]; [None] is the [TypeError] of a value without length. *)
Definition len (v : Json) : option nat :=
  match v with
  | JStr s => Some (String.length s)
  | JArr items => Some (List.length items)
  | JObj members => Some (List.length members)
  | _ => None
  end.

(** [type(v).__name__] *)
Definition type_name (v : Json) : string :=
  match v with
  | JNull => "NoneType"
  | JBool _ => "bool"
  | JNum _ => "int"
  | JStr _ => "str"
  | JArr _ => "list"
  | JObj _ => "dict"
  end.

(** The file at [summaries_path]: absent, present but not loadable
    (opening or [json.load] raises with the given message), or
    loadable. *)
Inductive SummariesFile :=
| Missing
| Unloadable (error : string)
| Loaded (content : Json).

Record Args := mkArgs {
  query : string;
  summaries_path : string;
  model_name : string
}.

(** What a run of [main] does, in order. *)
Inductive Event :=
| LogInfo (message : string)
| LogError (message : string)
| LogCritical (message : string)
| LLMHandlerInit (model : string)
| GenerateGlobalAnswer (question : string) (summaries : Json)
| Print (text : string).

Definition is_model_event (e : Event) : bool :=
  match e with
  | LLMHandlerInit _ | GenerateGlobalAnswer _ _ => true
  | _ => false
  end.

Definition is_diagnostic (e : Event) : bool :=
  match e with
  | LogError _ | LogCritical _ => true
  | _ => false
  end.

Definition show_nat (n : nat) : string :=
  NilEmpty.string_of_uint (Nat.to_uint n).

Fixpoint repeat_string (s : string) (n : nat) : string :=
  match n with
  | O => EmptyString
  | S n' => (s ++ repeat_string s n')%string
  end.

Section Main.
(** [LLMHandler(model_name=...)] and [generate_global_answer]; each
    returns its value or the message of the exception it raises. *)
Variable LLM : Type.
Variable LLMHandler : string -> LLM + string.
Variable generate_global_answer : string -> Json -> LLM -> string + string.

Definition failed (e : string) : Event :=
  LogCritical ("Query pipeline failed: " ++ e).

(** The events of [main(args)] after [setup_logging()], with the
    summaries file in state [file]. *)
Definition main (args : Args) (file : SummariesFile) : list Event :=
  let start :=
    LogInfo ("Starting GraphRAG Query Pipeline for query: '" ++ query args ++ "'") in
  match file with
  | Missing =>
      [start;
       LogCritical ("Summaries file not found: " ++ summaries_path args);
       LogCritical "Please run the indexing pipeline first: `python scripts/run_indexing.py`"]
  | Unloadable e => [start; failed e]
  | Loaded community_summaries =>
      if negb (truthy community_summaries)
      then [start; LogError "Community summaries file is empty."]
      else
        match len community_summaries with
        | None =>
            [start;
             failed ("object of type '" ++ type_name community_summaries
                     ++ "' has no len()")]
        | Some n =>
            let loaded := LogInfo ("Loaded " ++ show_nat n ++ " community summaries.") in
            match LLMHandler (model_name args) with
            | inr e => [start; loaded; LLMHandlerInit (model_name args); failed e]
            | inl llm =>
                match generate_global_answer (query args) community_summaries llm with
                | inr e =>
                    [start; loaded; LLMHandlerInit (model_name args);
                     GenerateGlobalAnswer (query args) community_summaries; failed e]
                | inl final_answer =>
                    [start; loaded; LLMHandlerInit (model_name args);
                     GenerateGlobalAnswer (query args) community_summaries;
                     Print (Pipeline.nl ++ repeat_string "=" 80);
                     Print ("Query: " ++ query args);
                     Print (Pipeline.nl ++ "Final Global Answer:" ++ Pipeline.nl);
                     Print final_answer;
                     Print (repeat_string "=" 80);
                     LogInfo "GraphRAG Query Pipeline COMPLETED successfully."]
                end
            end
        end
  end.
End Main.

End Query.

(** ** The indexing stage: [scripts/run_indexing.py] *)

Module Indexing.

Record Args := mkArgs {
  pdf_url : string;
  pdf_path : string;
  output_dir : string;
  model_name : string
}.

(** What a run of [main] does, in order; an event of a call records
    that the call was made, whether it returned or raised. *)
Inductive Event :=
| LogInfo (message : string)
| LogCritical (message : string)
| DownloadPdf (url path : string)
| LoadAndSplitDocs (path : string)
| LLMHandlerInit (model : string)
| MakeDirs (dir : string)
| WriteGml (graph : Nx.Graph) (path : string)
| DumpJson (summaries : list Pipeline.CommunitySummaryRecord) (path : string).

(** How a piece of the body of the [try] ends: with a value, with the
    [return] of [main], or with a raised exception. *)
Inductive Outcome (A : Type) :=
| Value (a : A)
| Return
| Raise (e : string).

Arguments Value {A} a.
Arguments Return {A}.
Arguments Raise {A} e.

Definition M (A : Type) : Type := list Event * Outcome A.

Definition ret {A : Type} (a : A) : M A := ([], Value a).

Definition bind {A B : Type} (m : M A) (f : A -> M B) : M B :=
  match m with
  | (events, Value a) => let (events', o) := f a in (events ++ events', o)
  | (events, Return) => (events, Return)
  | (events, Raise e) => (events, Raise e)
  end.

Definition emit (e : Event) : M unit := ([e], Value tt).

(** A call of a collaborator, which returns or raises. *)
Definition call {A : Type} (e : Event) (r : A + string) : M A :=
  ([e], match r with inl a => Value a | inr msg => Raise msg end).

(** A step of the pipeline itself, which returns or raises. *)
Definition result {A : Type} (r : A + string) : M A :=
  ([], match r with inl a => Value a | inr msg => Raise msg end).

(** [return] *)
Definition stop {A : Type} : M A := ([], Return).

Notation "x <- m ;; k" := (bind m (fun x => k))
  (at level 61, m at next level, right associativity).
Notation "m ;;; k" := (bind m (fun _ => k))
  (at level 61, right associativity).

(** [os.path.join(a, b)] on POSIX paths. *)
Fixpoint ends_with_slash (a : string) : bool :=
  match a with
  | EmptyString => false
  | String c EmptyString => Ascii.eqb c "/"%char
  | String _ a' => ends_with_slash a'
  end.

Definition path_join (a b : string) : string :=
  match b with
  | String "/"%char _ => b
  | _ =>
      if Str.is_empty a || ends_with_slash a then (a ++ b)%string
      else (a ++ "/" ++ b)%string
  end.

Section Main.
(** The iteration order of sets and the partition library, as in
    [Pipeline.detect_communities]. *)
Variable set_iter : list string -> list string.
Variable find_partition : Pipeline.IGraph -> option (list (list nat)).
(** The handler of the language model. *)
Variable LLM : Type.
Variable LLMHandler : string -> LLM + string.
Variable get_response : LLM -> string -> string -> option string * LLM.
(** The collaborators of [main]: each returns or raises with a
    message.  [load_and_split_docs] returns [None] or the text units
    of the data frame; [path_exists] is [os.path.exists] at the time
    [main] asks. *)
Variable download_pdf : string -> string -> unit + string.
Variable path_exists : string -> bool.
Variable load_and_split_docs : string -> option (list string) + string.
Variable makedirs : string -> unit + string.
Variable write_gml : Nx.Graph -> string -> unit + string.
Variable dump_json : list Pipeline.CommunitySummaryRecord -> string -> unit + string.

(** [df_text_units is None or df_text_units.empty] *)
Definition no_text_units (df : option (list string)) : bool :=
  match df with
  | None => true
  | Some [] => true
  | Some (_ :: _) => false
  end.

Definition text_units_of (df : option (list string)) : list string :=
  match df with
  | None => []
  | Some units => units
  end.

(** Steps 4 to 7: the four functions of the pipeline on the same
    handler; [inr] is the message of the exception that
    [detect_communities] lets out. *)
Definition index (llm : LLM) (text_units : list string)
  : Nx.Graph * list Pipeline.CommunitySummaryRecord + string :=
  let (elements, llm1) :=
    Pipeline.extract_entities_relationships LLM get_response text_units llm in
  let graph := Pipeline.build_knowledge_graph elements in
  match Pipeline.detect_communities set_iter find_partition graph with
  | inr e => inr e
  | inl communities =>
      let (community_summaries, _) :=
        Pipeline.summarize_communities set_iter LLM get_response communities graph llm1 in
      inl (graph, community_summaries)
  end.

(** The body of the [try]. *)
Definition body (args : Args) : M unit :=
  (if Str.is_empty (pdf_url args) then ret tt
   else call (DownloadPdf (pdf_url args) (pdf_path args))
             (download_pdf (pdf_url args) (pdf_path args))) ;;;
  if negb (path_exists (pdf_path args)) then
    emit (LogCritical ("PDF file not found at: " ++ pdf_path args ++ ". Exiting.")) ;;;
    stop
  else
    df_text_units <- call (LoadAndSplitDocs (pdf_path args))
                          (load_and_split_docs (pdf_path args)) ;;
    if no_text_units df_text_units then
      emit (LogCritical "No text units extracted. Exiting.") ;;; stop
    else
      llm <- call (LLMHandlerInit (model_name args)) (LLMHandler (model_name args)) ;;
      indexed <- result (index llm (text_units_of df_text_units)) ;;
      let (graph, community_summaries) := indexed in
      call (MakeDirs (output_dir args)) (makedirs (output_dir args)) ;;;
      let graph_path := path_join (output_dir args) "knowledge_graph.gml" in
      let summaries_path := path_join (output_dir args) "community_summaries.json" in
      call (WriteGml graph graph_path) (write_gml graph graph_path) ;;;
      emit (LogInfo ("Knowledge graph saved to " ++ graph_path)) ;;;
      call (DumpJson community_summaries summaries_path)
           (dump_json community_summaries summaries_path) ;;;
      emit (LogInfo ("Community summaries saved to " ++ summaries_path)) ;;;
      emit (LogInfo "GraphRAG Indexing Pipeline COMPLETED successfully.").

(** The events of [main(args)] after [setup_logging()]: the [except]
    clause logs what the body raised. *)
Definition main (args : Args) : list Event :=
  let (events, outcome) := body args in
  LogInfo "Starting GraphRAG Indexing Pipeline..." ::
  match outcome with
  | Raise e => events ++ [LogCritical ("Indexing pipeline failed: " ++ e)]
  | _ => events
  end.
End Main.

(** [json.dump(community_summaries, f)] followed by [json.load(f)]. *)
Definition record_json (r : Pipeline.CommunitySummaryRecord) : Query.Json :=
  Query.JObj [("community_id", Query.JNum (Pipeline.community_id r));
              ("nodes", Query.JArr (map Query.JStr (Pipeline.nodes r)));
              ("summary", Query.JStr (Pipeline.summary r))].

Definition summaries_json (rs : list Pipeline.CommunitySummaryRecord) : Query.Json :=
  Query.JArr (map record_json rs).

End Indexing.

(** ** A handler that keeps the list of the requests it received *)

Module Logged.

Section Logged.
Variable LLM : Type.
Variable get_response : LLM -> string -> string -> option string * LLM.

Definition State : Type := LLM * list (string * string).

Definition get_response_logged (st : State) (prompt content : string)
  : option string * State :=
  let (llm, log) := st in
  let (response, llm') := get_response llm prompt content in
  (response, (llm', log ++ [(prompt, content)])).
End Logged.

End Logged.

(** ** The shape of what the pattern matches *)

Module Shape.

Fixpoint all_space (s : string) : bool :=
  match s with
  | EmptyString => true
  | String c s' => Str.is_space c && all_space s'
  end.

Fixpoint no_newline (s : string) : bool :=
  match s with
  | EmptyString => true
  | String c s' => negb (Str.is_newline c) && no_newline s'
  end.

(** [$] under [re.MULTILINE] holds in front of [s]. *)
Definition at_eol (s : string) : bool :=
  match s with
  | EmptyString => true
  | String c _ => Str.is_newline c
  end.

(** [c in s] for a character. *)
Fixpoint has_char (c : ascii) (s : string) : bool :=
  match s with
  | EmptyString => false
  | String c' s' => Ascii.eqb c c' || has_char c s'
  end.

(** [^] under [re.MULTILINE] holds after [before]: at the start of
    the text or just after a line break. *)
Fixpoint at_bol (before : string) : bool :=
  match before with
  | EmptyString => true
  | String c rest =>
      match rest with
      | EmptyString => Str.is_newline c
      | String _ _ => at_bol rest
      end
  end.

(** A name as [build_knowledge_graph] stores it: not empty, without
    white space at either end, on one line. *)
Definition clean (s : string) : Prop :=
  s <> EmptyString /\ Str.strip s = s /\ no_newline s = true.

End Shape.

(** * Properties *)

(** ** Strings and dictionaries *)

Module StrFacts.

Import Str.

Lemma mem_In (x : string) (l : list string) : mem x l = true <-> In x l.
Proof.
  induction l as [|y l IH]; simpl.
  - split; [discriminate | tauto].
  - rewrite orb_true_iff, IH, String.eqb_eq. split; intros [H|H]; auto.
Qed.

Lemma mem_not_In (x : string) (l : list string) : mem x l = false <-> ~ In x l.
Proof.
  rewrite <- mem_In. destruct (mem x l); split; congruence.
Qed.

End StrFacts.

Module DictFacts.

Import Dict.

Section DictFacts.
Context {V : Type}.
Implicit Types d : dict V.

Lemma get_set_same k v d : get k (set k v d) = Some v.
Proof.
  induction d as [|[k' v'] d IH]; simpl.
  - now rewrite String.eqb_refl.
  - destruct (String.eqb k k') eqn:E; simpl.
    + now rewrite String.eqb_refl.
    + now rewrite E.
Qed.

Lemma get_set_other k k' v d : k' <> k -> get k' (set k v d) = get k' d.
Proof.
  intros Hne. induction d as [|[k2 v2] d IH]; simpl.
  - apply String.eqb_neq in Hne. now rewrite Hne.
  - destruct (String.eqb k k2) eqn:E; simpl.
    + apply String.eqb_eq in E. subst k2.
      apply String.eqb_neq in Hne. now rewrite Hne.
    + destruct (String.eqb k' k2); auto.
Qed.

Lemma get_set k k' v d :
  get k' (set k v d) = if String.eqb k' k then Some v else get k' d.
Proof.
  destruct (String.eqb k' k) eqn:E.
  - apply String.eqb_eq in E. subst. apply get_set_same.
  - apply String.eqb_neq in E. now apply get_set_other.
Qed.

Lemma get_app k d1 d2 :
  get k (d1 ++ d2) = match get k d1 with Some v => Some v | None => get k d2 end.
Proof.
  induction d1 as [|[k' v'] d1 IH]; simpl; auto.
  destruct (String.eqb k k'); auto.
Qed.

Lemma get_Some_In k v d : get k d = Some v -> In (k, v) d.
Proof.
  induction d as [|[k' v'] d IH]; simpl; [discriminate|].
  destruct (String.eqb k k') eqn:E.
  - apply String.eqb_eq in E. subst. intros [= ->]. now left.
  - auto.
Qed.

Lemma get_None_keys k d : get k d = None <-> ~ In k (keys d).
Proof.
  induction d as [|[k' v'] d IH]; simpl.
  - tauto.
  - destruct (String.eqb k k') eqn:E.
    + apply String.eqb_eq in E. subst. split; [discriminate | tauto].
    + apply String.eqb_neq in E. rewrite IH. split.
      * intros H [H1|H1]; [congruence | tauto].
      * tauto.
Qed.

Lemma get_Some_keys k d : (exists v, get k d = Some v) <-> In k (keys d).
Proof.
  destruct (get k d) eqn:E.
  - split; [intros _ | eauto].
    apply get_Some_In in E. change k with (fst (k, v)). now apply in_map.
  - apply get_None_keys in E. split; [intros [v Hv]; discriminate | tauto].
Qed.


Lemma keys_set k v d :
  keys (set k v d) = if Str.mem k (keys d) then keys d else keys d ++ [k].
Proof.
  induction d as [|[k' v'] d IH]; simpl; auto.
  destruct (String.eqb k k') eqn:E; simpl.
  - apply String.eqb_eq in E. now subst.
  - rewrite IH. now destruct (Str.mem k (keys d)).
Qed.

End DictFacts.

End DictFacts.

(** ** Graph updates *)

Module NxFacts.

Import Nx.

Lemma has_node_In n G : has_node n G = true <-> In n (nodes G).
Proof. apply StrFacts.mem_In. Qed.

Lemma nodes_add_node n G x :
  In x (nodes (add_node n G)) <-> x = n \/ In x (nodes G).
Proof.
  unfold add_node. destruct (has_node n G) eqn:E.
  - apply has_node_In in E. split; [auto | intros [->|H]; auto].
  - unfold nodes, Dict.keys. rewrite map_app, in_app_iff. simpl.
    split; intros H; intuition auto.
Qed.

Lemma adj_add_node n G u : adj (add_node n G) u = adj G u.
Proof.
  unfold add_node. destruct (has_node n G) eqn:E; auto.
  unfold adj. rewrite DictFacts.get_app.
  destruct (Dict.get u G) eqn:Eu; auto.
  simpl. destruct (String.eqb u n); auto.
Qed.

Lemma nodes_set_adj u v l G x :
  In x (nodes (set_adj u v l G)) <-> x = u \/ In x (nodes G).
Proof.
  unfold set_adj, nodes. rewrite DictFacts.keys_set.
  destruct (Str.mem u (Dict.keys G)) eqn:E.
  - apply StrFacts.mem_In in E. split; [auto | intros [->|H]; auto].
  - rewrite in_app_iff. simpl. intuition auto.
Qed.

Lemma adj_set_adj u v l G x :
  adj (set_adj u v l G) x =
  if String.eqb x u then Dict.set v l (adj G u) else adj G x.
Proof.
  unfold set_adj. unfold adj at 1. rewrite DictFacts.get_set.
  destruct (String.eqb x u); reflexivity.
Qed.

Lemma edge_label_add_node n G u v :
  edge_label (add_node n G) u v = edge_label G u v.
Proof. unfold edge_label. now rewrite adj_add_node. Qed.

Lemma edge_label_set_adj a b l G u v :
  edge_label (set_adj a b l G) u v =
  if String.eqb u a && String.eqb v b then Some l else edge_label G u v.
Proof.
  unfold edge_label. rewrite adj_set_adj.
  destruct (String.eqb u a) eqn:E; simpl; auto.
  apply String.eqb_eq in E. subst u.
  rewrite DictFacts.get_set. reflexivity.
Qed.

(** Writing the edge between [a] and [b] sets the label seen from both
    sides and leaves every other pair alone. *)
Lemma edge_label_add_edge a b l G u v :
  edge_label (add_edge a b l G) u v =
  if (String.eqb u a && String.eqb v b) || (String.eqb u b && String.eqb v a)
  then Some l else edge_label G u v.
Proof.
  unfold add_edge. rewrite !edge_label_set_adj, !edge_label_add_node.
  destruct (String.eqb u a && String.eqb v b);
    destruct (String.eqb u b && String.eqb v a); reflexivity.
Qed.

Lemma nodes_add_edge a b l G x :
  In x (nodes (add_edge a b l G)) <-> x = a \/ x = b \/ In x (nodes G).
Proof.
  unfold add_edge. rewrite !nodes_set_adj, !nodes_add_node. tauto.
Qed.

End NxFacts.

(** ** Building the graph *)

Module BuildFacts.

Import Str Pipeline.

Lemma add_match_triple G m :
  add_match G m = if malformed m then G else add_triple G (triple_of_match m).
Proof. reflexivity. Qed.

Lemma fold_add_match ms : forall G,
  fold_left add_match ms G =
  fold_left add_triple
    (map triple_of_match (filter (fun m => negb (malformed m)) ms)) G.
Proof.
  induction ms as [|m ms IH]; intros G; simpl; auto.
  rewrite add_match_triple. destruct (malformed m); simpl; apply IH.
Qed.

(** One summary adds its triples, in order. *)
Lemma add_summary_triples G summary :
  add_summary G summary = fold_left add_triple (triples_of_summary summary) G.
Proof.
  unfold add_summary, triples_of_summary.
  destruct (contains "Relationships:" summary); simpl; auto.
  apply fold_add_match.
Qed.

Lemma fold_add_summary ss : forall G,
  fold_left add_summary ss G = fold_left add_triple (parsed_triples ss) G.
Proof.
  induction ss as [|s ss IH]; intros G; simpl; auto.
  rewrite fold_left_app, IH, add_summary_triples. reflexivity.
Qed.

(** The graph is the fold of the parsed triples over the empty graph. *)
Lemma build_knowledge_graph_triples ss :
  build_knowledge_graph ss = fold_left add_triple (parsed_triples ss) Nx.empty.
Proof. apply fold_add_summary. Qed.

Lemma parsed_triples_app ss1 ss2 :
  parsed_triples (ss1 ++ ss2) = parsed_triples ss1 ++ parsed_triples ss2.
Proof. apply flat_map_app. Qed.

Lemma In_triples_of_summary t s :
  In t (triples_of_summary s) <->
  contains "Relationships:" s = true /\
  exists m, In m (Re.finditer s) /\ malformed m = false /\ t = triple_of_match m.
Proof.
  unfold triples_of_summary. destruct (contains "Relationships:" s).
  - rewrite in_map_iff. split.
    + intros [m [Hm Hin]]. apply filter_In in Hin. destruct Hin as [Hin Hok].
      split; auto. exists m. repeat split; auto.
      now destruct (malformed m).
    + intros [_ [m [Hin [Hok ->]]]]. exists m. split; auto.
      apply filter_In. split; auto. now rewrite Hok.
  - simpl. split; [tauto | intros [H _]; discriminate].
Qed.

Lemma In_parsed_triples t ss :
  In t (parsed_triples ss) <->
  exists s, In s ss /\ contains "Relationships:" s = true /\
  exists m, In m (Re.finditer s) /\ malformed m = false /\ t = triple_of_match m.
Proof.
  unfold parsed_triples. rewrite in_flat_map. split.
  - intros [s [Hs Ht]]. apply In_triples_of_summary in Ht. exists s. tauto.
  - intros [s [Hs Ht]]. exists s. split; auto. now apply In_triples_of_summary.
Qed.

Lemma touches_sym a b t : touches a b t = touches b a t.
Proof. unfold touches. apply orb_comm. Qed.

Lemma touches_iff a b t :
  touches a b t = true <->
  (source t = a /\ target t = b) \/ (source t = b /\ target t = a).
Proof.
  unfold touches. rewrite orb_true_iff, !andb_true_iff, !String.eqb_eq. tauto.
Qed.

Lemma edge_label_add_triple G t u v :
  Nx.edge_label (add_triple G t) u v =
  if touches u v t then Some (relation t) else Nx.edge_label G u v.
Proof.
  unfold add_triple. rewrite NxFacts.edge_label_add_edge, !NxFacts.edge_label_add_node.
  unfold touches.
  rewrite (String.eqb_sym u (source t)), (String.eqb_sym v (target t)),
          (String.eqb_sym u (target t)), (String.eqb_sym v (source t)).
  rewrite (andb_comm (String.eqb (target t) u)). reflexivity.
Qed.

Lemma last_writer_snoc a b ts t :
  last_writer a b (ts ++ [t]) =
  if touches a b t then Some t else last_writer a b ts.
Proof. unfold last_writer. rewrite rev_app_distr. reflexivity. Qed.

(** After a sequence of triples the label between [a] and [b] is the
    relation of the last triple that wrote it. *)
Lemma edge_label_fold ts : forall G a b,
  Nx.edge_label (fold_left add_triple ts G) a b =
  match last_writer a b ts with
  | Some t => Some (relation t)
  | None => Nx.edge_label G a b
  end.
Proof.
  induction ts as [|t ts IH] using rev_ind; intros G a b.
  - reflexivity.
  - rewrite fold_left_app, last_writer_snoc. simpl.
    rewrite edge_label_add_triple.
    destruct (touches a b t); auto.
Qed.

Lemma last_writer_sym a b ts : last_writer a b ts = last_writer b a ts.
Proof.
  unfold last_writer. induction (rev ts) as [|t l IH]; simpl; auto.
  rewrite (touches_sym a b), IH. reflexivity.
Qed.

Lemma last_writer_Some a b ts t :
  last_writer a b ts = Some t -> In t ts /\ touches a b t = true.
Proof.
  unfold last_writer. intros H. apply find_some in H.
  destruct H as [Hin Ht]. split; auto. now apply in_rev.
Qed.

Lemma nodes_add_triple G t x :
  In x (Nx.nodes (add_triple G t)) <->
  x = source t \/ x = target t \/ In x (Nx.nodes G).
Proof.
  unfold add_triple. rewrite NxFacts.nodes_add_edge, !NxFacts.nodes_add_node. tauto.
Qed.

Lemma nodes_fold ts : forall G x,
  In x (Nx.nodes (fold_left add_triple ts G)) <->
  In x (Nx.nodes G) \/ exists t, In t ts /\ (x = source t \/ x = target t).
Proof.
  induction ts as [|t ts IH]; intros G x; simpl.
  - split; auto. intros [H|[t [[] _]]]; auto.
  - rewrite IH, nodes_add_triple. split.
    + intros [[H|[H|H]]|[t' [Hin H]]]; eauto 6.
    + intros [H|[t' [[->|Hin] H]]]; eauto 6. left. tauto.
Qed.

(** A summary that contributes no triple leaves the graph as it is,
    wherever it stands in the input. *)
Lemma build_skip before s after :
  triples_of_summary s = [] ->
  build_knowledge_graph (before ++ s :: after) =
  build_knowledge_graph (before ++ after).
Proof.
  intros H. rewrite !build_knowledge_graph_triples, !parsed_triples_app.
  simpl. rewrite H. reflexivity.
Qed.

(** A match with an empty field is skipped and the next match is
    handled as if it had not been there. *)
Lemma malformed_match_skipped G m :
  malformed m = true -> add_match G m = G.
Proof. intros H. rewrite add_match_triple. now rewrite H. Qed.

Lemma well_formed_match_added G m :
  malformed m = false -> add_match G m = add_triple G (triple_of_match m).
Proof. intros H. rewrite add_match_triple. now rewrite H. Qed.

(** What extraction returns when every call of the model raises. *)
Lemma extract_all_failed text_units :
  fst (extract_entities_relationships unit (fun _ _ _ => (None, tt)) text_units tt)
  = map (fun _ => EXTRACTION_SENTINEL) text_units.
Proof.
  unfold extract_entities_relationships.
  assert (H : forall acc,
    fst (fold_left (extract_one unit (fun _ _ _ => (None, tt))) text_units (acc, tt))
    = acc ++ map (fun _ => EXTRACTION_SENTINEL) text_units).
  { induction text_units as [|u us IH]; intros acc; simpl.
    - now rewrite app_nil_r.
    - rewrite IH, <- app_assoc. reflexivity. }
  apply (H []).
Qed.

(** A chunk whose call raises yields the sentinel, a chunk whose call
    answers yields the answer. *)
Lemma extract_one_result (LLM : Type)
      (get_response : LLM -> string -> string -> option string * LLM)
      elements llm chunk :
  fst (extract_one LLM get_response (elements, llm) chunk) =
  elements ++ [match fst (get_response llm ENTITY_EXTRACTION_PROMPT chunk) with
               | Some response => response
               | None => EXTRACTION_SENTINEL
               end].
Proof.
  unfold extract_one. destruct (get_response llm _ chunk) as [[r|] llm']; reflexivity.
Qed.

End BuildFacts.

(** ** Claims about [build_knowledge_graph] *)

Module BuildClaims.

Import Str Pipeline BuildFacts.

(** C4: edges are keyed by the unordered pair of their endpoints and
    hold one label.  Adding an edge writes its label on the pair in
    both orientations, and after any input the label between [a] and
    [b] is the relation of the last parsed triple whose source and
    target are [a] and [b] in either order (no label when there is
    none). *)
Theorem C4_last_write_wins (element_summaries : list string) (a b : string) :
  let G := build_knowledge_graph element_summaries in
  Nx.edge_label G a b =
    option_map relation (last_writer a b (parsed_triples element_summaries))
  /\ Nx.edge_label G a b = Nx.edge_label G b a
  /\ forall (G0 : Nx.Graph) (l : string),
       Nx.edge_label (Nx.add_edge a b l G0) a b = Some l
       /\ Nx.edge_label (Nx.add_edge a b l G0) b a = Some l.
Proof.
  cbv zeta. rewrite build_knowledge_graph_triples, !edge_label_fold.
  split; [|split].
  - destruct (last_writer a b (parsed_triples element_summaries)); reflexivity.
  - rewrite (last_writer_sym a b). reflexivity.
  - intros G0 l. rewrite !NxFacts.edge_label_add_edge, !String.eqb_refl.
    simpl. rewrite orb_true_r. auto.
Qed.

(** C5: every edge of the built graph joins the source and target of
    some parsed triple, the source and target of every parsed triple
    are nodes, the endpoints of every edge are nodes, and the empty
    input gives the empty graph. *)
Theorem C5_graph_containment (element_summaries : list string) :
  let G := build_knowledge_graph element_summaries in
  (forall a b l, Nx.edge_label G a b = Some l ->
     exists t, In t (parsed_triples element_summaries) /\
       ((source t = a /\ target t = b) \/ (source t = b /\ target t = a)))
  /\ (forall t, In t (parsed_triples element_summaries) ->
        In (source t) (Nx.nodes G) /\ In (target t) (Nx.nodes G))
  /\ (forall a b l, Nx.edge_label G a b = Some l ->
        In a (Nx.nodes G) /\ In b (Nx.nodes G))
  /\ build_knowledge_graph [] = Nx.empty.
Proof.
  cbv zeta. rewrite build_knowledge_graph_triples.
  assert (Hedge : forall a b l,
    Nx.edge_label (fold_left add_triple (parsed_triples element_summaries) Nx.empty) a b = Some l ->
    exists t, In t (parsed_triples element_summaries) /\
      ((source t = a /\ target t = b) \/ (source t = b /\ target t = a))).
  { intros a b l H. rewrite edge_label_fold in H.
    destruct (last_writer a b (parsed_triples element_summaries)) as [t|] eqn:E.
    - apply last_writer_Some in E. destruct E as [Hin Ht].
      exists t. split; auto. now apply touches_iff.
    - discriminate. }
  split; [exact Hedge|]. split; [|split].
  - intros t Hin. split; apply nodes_fold; right; exists t; auto.
  - intros a b l H. destruct (Hedge a b l H) as [t [Hin Ht]].
    split; apply nodes_fold; right; exists t; split; auto;
      destruct Ht as [[<- <-]|[<- <-]]; auto.
  - reflexivity.
Qed.

(** C7: a summary without the substring "Relationships:" contributes
    no triple and leaves the graph unchanged, whatever its lines look
    like and wherever it stands in the input. *)
Theorem C7_no_marker_no_triples (summary : string)
  (Hmarker : contains "Relationships:" summary = false) :
  triples_of_summary summary = []
  /\ (forall G, add_summary G summary = G)
  /\ forall before after,
       build_knowledge_graph (before ++ summary :: after) =
       build_knowledge_graph (before ++ after).
Proof.
  assert (H : triples_of_summary summary = []).
  { unfold triples_of_summary. now rewrite Hmarker. }
  split; [exact H|]. split.
  - intros G. unfold add_summary. now rewrite Hmarker.
  - intros before after. now apply build_skip.
Qed.

(** A summary of three lines of the relationship shape and no marker. *)
Definition unmarked_summary : string :=
  ("- A -> r -> B" ++ nl ++ "- B -> s -> C" ++ nl ++ "- C -> t -> A")%string.

Lemma C7_witness :
  List.length (Re.finditer unmarked_summary) = 3
  /\ triples_of_summary unmarked_summary = []
  /\ (forall G, add_summary G unmarked_summary = G)
  /\ forall before after,
       build_knowledge_graph (before ++ unmarked_summary :: after) =
       build_knowledge_graph (before ++ after).
Proof.
  split; [vm_compute; reflexivity|].
  apply (C7_no_marker_no_triples unmarked_summary). vm_compute. reflexivity.
Defined.

(** Every node of the built graph is the trimmed source or target of
    a match of the relationship pattern in a summary that carries the
    marker; the extraction sentinel adds nothing wherever it stands,
    and when every extraction call raises the graph is empty. *)
Lemma built_nodes_from_matches (element_summaries : list string) :
  let G := build_knowledge_graph element_summaries in
  (forall x, In x (Nx.nodes G) ->
     exists s m, In s element_summaries
       /\ contains "Relationships:" s = true
       /\ In m (Re.finditer s) /\ malformed m = false
       /\ (x = strip (Re.group1 m) \/ x = strip (Re.group3 m)))
  /\ (forall G0, add_summary G0 EXTRACTION_SENTINEL = G0)
  /\ (forall before after,
       build_knowledge_graph (before ++ EXTRACTION_SENTINEL :: after) =
       build_knowledge_graph (before ++ after))
  /\ forall text_units,
       build_knowledge_graph
         (fst (extract_entities_relationships unit (fun _ _ _ => (None, tt))
                 text_units tt)) = Nx.empty.
Proof.
  cbv zeta. split; [|split; [|split]].
  - intros x Hx. rewrite build_knowledge_graph_triples in Hx.
    apply nodes_fold in Hx. destruct Hx as [[]|[t [Hin Hx]]].
    apply In_parsed_triples in Hin.
    destruct Hin as [s [Hs [Hc [m [Hm [Hok ->]]]]]].
    exists s, m. repeat split; auto.
  - intros G0. reflexivity.
  - intros before after. apply build_skip. reflexivity.
  - intros text_units. rewrite extract_all_failed.
    induction text_units as [|u us IH]; simpl; auto.
Qed.

(** The end-to-end example of the specification. *)
Lemma end_to_end_example :
  build_knowledge_graph
    [("Entities:" ++ nl ++ "- Alice" ++ nl ++ "- Bob" ++ nl ++ nl
      ++ "Relationships:" ++ nl ++ "- Alice -> knows -> Bob" ++ nl)%string]
  = [("Alice", [("Bob", "knows")]); ("Bob", [("Alice", "knows")])].
Proof. vm_compute. reflexivity. Qed.

(** A line with an empty field between two well-formed lines is
    dropped alone when the empty field is the relation. *)
Lemma empty_relation_line_dropped :
  parsed_triples
    [("Relationships:" ++ nl ++ "- A ->  -> B" ++ nl ++ "- C -> D -> E")%string]
  = [mkTriple "C" "D" "E"].
Proof. vm_compute. reflexivity. Qed.

(** C8, at the input that breaks it: taken alone, the line
    [- A -> B -> ] matches the pattern with an empty target and
    [- C -> D -> E] is well formed; in one summary, the first line
    followed by the second, the [\s*] after the second arrow runs over
    the line break, the pattern matches once with the whole second
    line as target, and the graph gets the nodes [A] and
    [- C -> D -> E] while the triple (C, D, E) is lost. *)
Theorem C8_empty_target_takes_next_line :
  let line1 := "- A -> B -> " in
  let line2 := "- C -> D -> E" in
  let summary := ("Relationships:" ++ nl ++ line1 ++ nl ++ line2)%string in
  map triple_of_match (Re.finditer line1) = [mkTriple "A" "B" ""]
  /\ map malformed (Re.finditer line1) = [true]
  /\ parsed_triples [("Relationships:" ++ nl ++ line2)%string] = [mkTriple "C" "D" "E"]
  /\ parsed_triples [summary] = [mkTriple "A" "B" "- C -> D -> E"]
  /\ Nx.nodes (build_knowledge_graph [summary]) = ["A"; "- C -> D -> E"]
  /\ ~ In (mkTriple "C" "D" "E") (parsed_triples [summary]).
Proof.
  cbv zeta. repeat split; try (vm_compute; reflexivity).
  vm_compute. intros [H|[]]. discriminate.
Qed.

(** C10, at the input that breaks it: the summary lists the entity
    [Zoe] under [Entities:], followed by the line [-> x -> y], and
    holds the one relationship line [- Alice -> knows -> Bob].  Taken
    alone, no line but the last matches the pattern, so no
    relationship line names [Zoe]; in the summary the [\s*] after the
    dash of [- Zoe] runs over the line break, the pattern matches the
    two lines together as the triple (Zoe, x, y), and [Zoe] and [y]
    become nodes.  What the specification says of the sentinel holds: it
    adds nothing wherever it stands. *)
Theorem C10_entity_line_becomes_node :
  let lines := ["Entities:"; "- Zoe"; "-> x -> y"; "";
                "Relationships:"; "- Alice -> knows -> Bob"] in
  let summary :=
    ("Entities:" ++ nl ++ "- Zoe" ++ nl ++ "-> x -> y" ++ nl ++ nl
     ++ "Relationships:" ++ nl ++ "- Alice -> knows -> Bob")%string in
  map (fun line => map triple_of_match (Re.finditer line)) lines
    = [[]; []; []; []; []; [mkTriple "Alice" "knows" "Bob"]]
  /\ parsed_triples [summary]
     = [mkTriple "Zoe" "x" "y"; mkTriple "Alice" "knows" "Bob"]
  /\ Nx.nodes (build_knowledge_graph [summary]) = ["Zoe"; "y"; "Alice"; "Bob"]
  /\ Nx.edge_label (build_knowledge_graph [summary]) "Zoe" "y" = Some "x"
  /\ build_knowledge_graph [EXTRACTION_SENTINEL] = Nx.empty
  /\ (forall before after,
        build_knowledge_graph (before ++ EXTRACTION_SENTINEL :: after) =
        build_knowledge_graph (before ++ after)).
Proof.
  cbv zeta.
  split; [vm_compute; reflexivity|].
  split; [vm_compute; reflexivity|].
  split; [vm_compute; reflexivity|].
  split; [vm_compute; reflexivity|].
  split; [vm_compute; reflexivity|].
  intros before after. apply build_skip. reflexivity.
Qed.

End BuildClaims.

(** ** Well-formed graphs *)

Module WfFacts.

Import Nx.

Lemma NoDup_snoc {A : Type} (l : list A) (x : A) :
  NoDup l -> ~ In x l -> NoDup (l ++ [x]).
Proof.
  intros Hl Hx. induction Hl as [|y l Hy Hl IH]; simpl.
  - constructor; [tauto | constructor].
  - constructor.
    + rewrite in_app_iff. simpl. intros [H|[H|[]]]; [tauto|].
      subst. apply Hx. now left.
    + apply IH. intros H. apply Hx. now right.
Qed.

Lemma keys_set_NoDup {V : Type} (k : string) (v : V) (d : Dict.dict V) :
  NoDup (Dict.keys d) -> NoDup (Dict.keys (Dict.set k v d)).
Proof.
  intros H. rewrite DictFacts.keys_set.
  destruct (Str.mem k (Dict.keys d)) eqn:E; auto.
  apply NoDup_snoc; auto. now apply StrFacts.mem_not_In.
Qed.

Lemma nodes_set_adj_eq u v l G :
  In u (nodes G) -> nodes (set_adj u v l G) = nodes G.
Proof.
  intros H. unfold set_adj, nodes. rewrite DictFacts.keys_set.
  apply StrFacts.mem_In in H. unfold nodes in H. now rewrite H.
Qed.

Lemma wf_empty : wf_graph empty.
Proof.
  constructor; simpl.
  - constructor.
  - intros u. constructor.
  - intros u v l H. discriminate.
Qed.

Lemma wf_add_node n G : wf_graph G -> wf_graph (add_node n G).
Proof.
  intros [Hn Ha Hs]. constructor.
  - unfold add_node. destruct (has_node n G) eqn:E; auto.
    unfold nodes, Dict.keys. rewrite map_app. simpl.
    apply NoDup_snoc; auto. now apply StrFacts.mem_not_In.
  - intros u. rewrite NxFacts.adj_add_node. apply Ha.
  - intros u v l. rewrite !NxFacts.edge_label_add_node. apply Hs.
Qed.

Lemma wf_add_edge a b l G : wf_graph G -> wf_graph (add_edge a b l G).
Proof.
  intros Hwf.
  assert (Hwf2 : wf_graph (add_node b (add_node a G)))
    by now apply wf_add_node, wf_add_node.
  destruct Hwf2 as [Hn Ha Hs].
  assert (Hina : In a (nodes (add_node b (add_node a G)))).
  { rewrite !NxFacts.nodes_add_node. auto. }
  assert (Hinb : In b (nodes (add_node b (add_node a G)))).
  { rewrite !NxFacts.nodes_add_node. auto. }
  constructor.
  - unfold add_edge. cbv zeta.
    rewrite nodes_set_adj_eq, nodes_set_adj_eq; auto.
    now rewrite nodes_set_adj_eq.
  - intros u. unfold add_edge. cbv zeta. rewrite !NxFacts.adj_set_adj.
    destruct (String.eqb u b) eqn:Eb.
    + apply keys_set_NoDup.
      destruct (String.eqb b a); [apply keys_set_NoDup|]; apply Ha.
    + destruct (String.eqb u a); [apply keys_set_NoDup|]; apply Ha.
  - intros u v l'. rewrite !NxFacts.edge_label_add_edge.
    rewrite (orb_comm (String.eqb v a && String.eqb u b)).
    rewrite (andb_comm (String.eqb v b)), (andb_comm (String.eqb v a)).
    destruct ((String.eqb u a && String.eqb v b) || (String.eqb u b && String.eqb v a)); auto.
    apply Hwf.
Qed.

Lemma wf_fold_add_triple ts : forall G,
  wf_graph G -> wf_graph (fold_left Pipeline.add_triple ts G).
Proof.
  induction ts as [|t ts IH]; intros G H; simpl; auto.
  apply IH. unfold Pipeline.add_triple.
  now apply wf_add_edge, wf_add_node, wf_add_node.
Qed.

(** Every graph that [build_knowledge_graph] returns is well formed. *)
Lemma wf_build_knowledge_graph ss : wf_graph (Pipeline.build_knowledge_graph ss).
Proof.
  rewrite BuildFacts.build_knowledge_graph_triples.
  apply wf_fold_add_triple, wf_empty.
Qed.

Lemma adjacent_label G u v :
  adjacent G u v <-> exists l, edge_label G u v = Some l.
Proof. unfold adjacent, edge_label. symmetry. apply DictFacts.get_Some_keys. Qed.

Lemma adjacent_sym G u v : wf_graph G -> adjacent G u v -> adjacent G v u.
Proof.
  intros Hwf H. apply adjacent_label in H. destruct H as [l H].
  apply adjacent_label. exists l. now apply Hwf.
Qed.

Lemma adjacent_node_l G u v : adjacent G u v -> In u (nodes G).
Proof.
  unfold adjacent, adj. destruct (Dict.get u G) eqn:E.
  - intros _. apply DictFacts.get_Some_keys. eauto.
  - simpl. tauto.
Qed.

Lemma adjacent_node_r G u v : wf_graph G -> adjacent G u v -> In v (nodes G).
Proof.
  intros Hwf H. apply (adjacent_node_l G v u). now apply adjacent_sym.
Qed.

Lemma connected_trans G u v w :
  connected G u v -> connected G v w -> connected G u w.
Proof.
  intros Huv Hvw. induction Hvw as [|x y Hvx IH Hxy]; auto.
  now apply connected_step with x.
Qed.

Lemma connected_sym G u v : wf_graph G -> connected G u v -> connected G v u.
Proof.
  intros Hwf H. induction H as [|x y Hux IH Hxy].
  - constructor.
  - apply connected_trans with x; auto.
    apply connected_step with y; [constructor | now apply adjacent_sym].
Qed.

Lemma connected_node G u v :
  wf_graph G -> In u (nodes G) -> connected G u v -> In v (nodes G).
Proof.
  intros Hwf Hu H. induction H as [|x y Hux IH Hxy]; auto.
  now apply adjacent_node_r with x.
Qed.

End WfFacts.

(** ** Connected components *)

Module ComponentFacts.

Import Nx WfFacts.

Lemma In_add_new seen w x : In x (add_new seen w) <-> In x seen \/ x = w.
Proof.
  unfold add_new. destruct (Str.mem w seen) eqn:E.
  - apply StrFacts.mem_In in E. split; [auto | intros [H| ->]; auto].
  - rewrite in_app_iff. simpl. intuition auto.
Qed.

Lemma add_new_app seen w : exists new, add_new seen w = seen ++ new.
Proof.
  unfold add_new. destruct (Str.mem w seen).
  - exists []. now rewrite app_nil_r.
  - now exists [w].
Qed.

Lemma NoDup_add_new seen w : NoDup seen -> NoDup (add_new seen w).
Proof.
  intros H. unfold add_new. destruct (Str.mem w seen) eqn:E; auto.
  apply NoDup_snoc; auto. now apply StrFacts.mem_not_In.
Qed.

Lemma In_fold_add_new ws : forall seen x,
  In x (fold_left add_new ws seen) <-> In x seen \/ In x ws.
Proof.
  induction ws as [|w ws IH]; intros seen x; simpl.
  - tauto.
  - rewrite IH, In_add_new. intuition auto.
Qed.

Lemma fold_add_new_app ws : forall seen,
  exists new, fold_left add_new ws seen = seen ++ new.
Proof.
  induction ws as [|w ws IH]; intros seen; simpl.
  - exists []. now rewrite app_nil_r.
  - destruct (add_new_app seen w) as [n1 H1].
    destruct (IH (add_new seen w)) as [n2 H2].
    exists (n1 ++ n2). rewrite H2, H1, app_assoc. reflexivity.
Qed.

Lemma NoDup_fold_add_new ws : forall seen,
  NoDup seen -> NoDup (fold_left add_new ws seen).
Proof.
  induction ws as [|w ws IH]; intros seen H; simpl; auto.
  apply IH. now apply NoDup_add_new.
Qed.

Lemma In_expand G S x :
  In x (expand G S) <-> In x S \/ exists y, In y S /\ adjacent G y x.
Proof.
  unfold expand. rewrite In_fold_add_new, in_flat_map. reflexivity.
Qed.

Lemma expand_app G S : exists new, expand G S = S ++ new.
Proof. apply fold_add_new_app. Qed.

Lemma NoDup_expand G S : NoDup S -> NoDup (expand G S).
Proof. apply NoDup_fold_add_new. Qed.

Lemma expand_fixed_closed G S : expand G S = S -> closed G S.
Proof.
  intros H y x Hy Hyx. rewrite <- H. apply In_expand. right. eauto.
Qed.

Lemma closed_expand_fixed G S : NoDup S -> closed G S -> expand G S = S.
Proof.
  intros Hnd Hc. destruct (expand_app G S) as [new Hnew].
  destruct new as [|x new].
  - now rewrite Hnew, app_nil_r.
  - exfalso.
    assert (Hx : In x S).
    { assert (Hin : In x (expand G S))
        by (rewrite Hnew; apply in_or_app; right; now left).
      apply In_expand in Hin. destruct Hin as [H|[y [Hy Hyx]]]; eauto. }
    assert (Hnd' : NoDup (S ++ x :: new)) by (rewrite <- Hnew; now apply NoDup_expand).
    apply NoDup_remove_2 in Hnd'. apply Hnd'. apply in_or_app. now left.
Qed.

Lemma grow_closed G k : forall S, NoDup S -> closed G S -> grow k G S = S.
Proof.
  induction k as [|k IH]; intros S Hnd Hc; simpl; auto.
  rewrite closed_expand_fixed; auto.
Qed.

Lemma NoDup_grow G k : forall S, NoDup S -> NoDup (grow k G S).
Proof.
  induction k as [|k IH]; intros S H; simpl; auto.
  apply IH. now apply NoDup_expand.
Qed.

Lemma grow_incl G k : forall S x, In x S -> In x (grow k G S).
Proof.
  induction k as [|k IH]; intros S x H; simpl; auto.
  apply IH. apply In_expand. now left.
Qed.

(** Every node found is joined to a node of the start set. *)
Lemma grow_sound G k : forall S x,
  In x (grow k G S) -> exists s, In s S /\ connected G s x.
Proof.
  induction k as [|k IH]; intros S x H; simpl in H.
  - exists x. split; [auto | constructor].
  - apply IH in H. destruct H as [s [Hs Hsx]].
    apply In_expand in Hs. destruct Hs as [Hs|[y [Hy Hys]]].
    + eauto.
    + exists y. split; auto.
      apply connected_trans with s; auto.
      apply connected_step with y; [constructor | auto].
Qed.

(** Every round either has reached a closed set or has found a new
    node. *)
Lemma grow_progress G k : forall S,
  NoDup S ->
  closed G (grow k G S) \/ List.length S + k <= List.length (grow k G S).
Proof.
  induction k as [|k IH]; intros S Hnd; simpl.
  - right. lia.
  - destruct (expand_app G S) as [new Hnew]. destruct new as [|x new].
    + rewrite app_nil_r in Hnew. rewrite Hnew. left.
      apply expand_fixed_closed in Hnew.
      rewrite grow_closed; auto.
    + destruct (IH (expand G S) (NoDup_expand G S Hnd)) as [H|H]; auto.
      right. rewrite Hnew in H at 1. rewrite length_app in H. simpl in H. lia.
Qed.

Lemma closed_connected G S s x :
  closed G S -> In s S -> connected G s x -> In x S.
Proof.
  intros Hc Hs H. induction H as [|v w Hsv IH Hvw]; auto.
  now apply Hc with v.
Qed.

Lemma grow_nodes G k : wf_graph G -> forall S,
  incl S (nodes G) -> incl (grow k G S) (nodes G).
Proof.
  intros Hwf S HS x Hx. apply grow_sound in Hx. destruct Hx as [s [Hs Hsx]].
  apply connected_node with s; auto.
Qed.

Lemma plain_bfs_NoDup G v : NoDup (plain_bfs G v).
Proof. apply NoDup_grow. constructor; [simpl; tauto | constructor]. Qed.

Lemma plain_bfs_closed G v :
  wf_graph G -> In v (nodes G) -> closed G (plain_bfs G v).
Proof.
  intros Hwf Hv. unfold plain_bfs.
  assert (Hnd : NoDup [v]) by (constructor; [simpl; tauto | constructor]).
  destruct (grow_progress G (List.length G) [v] Hnd) as [H|H]; auto.
  exfalso.
  assert (Hle : List.length (grow (List.length G) G [v]) <= List.length (nodes G)).
  { apply NoDup_incl_length; [now apply NoDup_grow|].
    apply grow_nodes; auto. intros x [<-|[]]. auto. }
  unfold nodes, Dict.keys in Hle. rewrite length_map in Hle. simpl in H. lia.
Qed.

(** The breadth-first search from a node finds exactly the nodes
    joined to it. *)
Lemma plain_bfs_spec G v x :
  wf_graph G -> In v (nodes G) ->
  (In x (plain_bfs G v) <-> connected G v x).
Proof.
  intros Hwf Hv. split.
  - intros H. apply grow_sound in H. destruct H as [s [[<-|[]] Hs]]. auto.
  - intros H. apply closed_connected with (G := G) (s := v); auto.
    + now apply plain_bfs_closed.
    + apply grow_incl. now left.
Qed.

(** What the loop over the nodes yields, [seen] being a union of
    components. *)
Lemma components_loop_spec G : wf_graph G -> forall vs seen,
  incl vs (nodes G) ->
  (forall s x, In s seen -> connected G s x -> In x seen) ->
  let cs := components_loop G vs seen in
  Forall (fun c => exists v, In v vs /\ c = plain_bfs G v) cs
  /\ NoDup (List.concat cs)
  /\ forall x, In x (List.concat cs) <->
       ~ In x seen /\ exists v, In v vs /\ connected G v x.
Proof.
  intros Hwf vs. induction vs as [|v vs IH]; intros seen Hvs Hseen; simpl.
  - split; [constructor|]. split; [constructor|].
    intros x. split; [tauto | intros [_ [v [[] _]]]].
  - assert (Hvs' : incl vs (nodes G)) by (intros y Hy; apply Hvs; now right).
    assert (Hv : In v (nodes G)) by (apply Hvs; now left).
    destruct (Str.mem v seen) eqn:E.
    + apply StrFacts.mem_In in E.
      destruct (IH seen Hvs' Hseen) as [H1 [H2 H3]].
      split; [|split; auto].
      * eapply Forall_impl; [|exact H1]. intros c [w [Hw Hc]]. exists w. split; [now right | auto].
      * intros x. rewrite H3. split.
        -- intros [Hx [w [Hw Hwx]]]. split; auto. exists w. split; [now right | auto].
        -- intros [Hx [w [[<-|Hw] Hwx]]].
           ++ exfalso. apply Hx. now apply Hseen with v.
           ++ split; eauto.
    + apply StrFacts.mem_not_In in E.
      assert (Hdisj : forall x, In x (plain_bfs G v) -> ~ In x seen).
      { intros x Hx Hs. apply E. apply Hseen with x; auto.
        apply connected_sym; auto. now apply plain_bfs_spec. }
      assert (Hseen' : forall s x, In s (seen ++ plain_bfs G v) ->
                 connected G s x -> In x (seen ++ plain_bfs G v)).
      { intros s x Hs Hsx. apply in_app_or in Hs. apply in_or_app.
        destruct Hs as [Hs|Hs].
        - left. now apply Hseen with s.
        - right. apply plain_bfs_spec; auto. apply plain_bfs_spec in Hs; auto.
          now apply connected_trans with s. }
      destruct (IH (seen ++ plain_bfs G v) Hvs' Hseen') as [H1 [H2 H3]].
      split; [|split].
      * constructor.
        -- exists v. split; [now left | auto].
        -- eapply Forall_impl; [|exact H1]. intros c [w [Hw Hc]]. exists w. split; [now right | auto].
      * simpl. apply NoDup_app; auto using plain_bfs_NoDup.
        intros x Hx Hx'. apply H3 in Hx'. destruct Hx' as [Hn _].
        apply Hn. apply in_or_app. now right.
      * intros x. simpl. rewrite in_app_iff, H3. split.
        -- intros [Hx|[Hx [w [Hw Hwx]]]].
           ++ split; [now apply Hdisj|]. exists v. split; [now left|].
              now apply plain_bfs_spec.
           ++ split.
              ** intros Hs. apply Hx. apply in_or_app. now left.
              ** exists w. split; [now right | auto].
        -- intros [Hx [w [Hw Hwx]]].
           destruct (in_dec string_dec x (plain_bfs G v)) as [Hc|Hc]; auto.
           right. split.
           ++ intros Hs. apply in_app_or in Hs. tauto.
           ++ destruct Hw as [<-|Hw].
              ** exfalso. apply Hc. now apply plain_bfs_spec.
              ** eauto.
Qed.

(** The components are searches from nodes of the graph, they share
    no node, and together they hold every node. *)
Lemma connected_components_spec G :
  wf_graph G ->
  Forall (fun c => exists v, In v (nodes G) /\ c = plain_bfs G v)
         (connected_components G)
  /\ NoDup (List.concat (connected_components G))
  /\ forall x, In x (List.concat (connected_components G)) <-> In x (nodes G).
Proof.
  intros Hwf. unfold connected_components.
  destruct (components_loop_spec G Hwf (nodes G) [] (incl_refl _)) as [H1 [H2 H3]].
  { intros s x []. }
  split; auto. split; auto.
  intros x. rewrite H3. split.
  - intros [_ [v [Hv Hvx]]]. now apply connected_node with v.
  - intros Hx. split; [simpl; tauto|]. exists x. split; [auto | constructor].
Qed.

(** A component has no repetition, is not empty, lies in the graph and
    is connected. *)
Lemma component_props G c :
  wf_graph G -> In c (connected_components G) ->
  NoDup c /\ c <> [] /\ incl c (Nx.nodes G)
  /\ forall x y, In x c -> In y c -> connected G x y.
Proof.
  intros Hwf Hc.
  destruct (connected_components_spec G Hwf) as [H1 _].
  rewrite Forall_forall in H1. destruct (H1 c Hc) as [v [Hv ->]].
  split; [apply plain_bfs_NoDup|]. split; [|split].
  - intros H. assert (Hin : In v (plain_bfs G v)) by (apply grow_incl; now left).
    rewrite H in Hin. destruct Hin.
  - apply grow_nodes; auto. intros x [<-|[]]. auto.
  - intros x y Hx Hy. apply plain_bfs_spec in Hx; auto. apply plain_bfs_spec in Hy; auto.
    apply connected_trans with v; auto. now apply connected_sym.
Qed.

End ComponentFacts.

(** ** Subgraph views *)

Module ViewFacts.

Import Nx WfFacts.

Lemma filter_all {A : Type} (f : A -> bool) (l : list A) :
  (forall x, In x l -> f x = true) -> filter f l = l.
Proof.
  induction l as [|a l IH]; intros H; simpl; auto.
  rewrite (H a) by now left. f_equal. apply IH. intros x Hx. apply H. now right.
Qed.

Section Views.
Variable set_iter : list string -> list string.
Hypothesis set_iter_perm : forall l, Permutation (set_iter l) l.

Lemma In_set_iter l x : In x (set_iter l) <-> In x l.
Proof.
  split; apply Permutation_in; [apply set_iter_perm | apply Permutation_sym, set_iter_perm].
Qed.

Lemma NoDup_set_iter l : NoDup l -> NoDup (set_iter l).
Proof. apply Permutation_NoDup, Permutation_sym, set_iter_perm. Qed.

Lemma In_set_of l x : In x (set_of set_iter l) <-> In x l.
Proof. unfold set_of. rewrite In_set_iter. apply nodup_In. Qed.

Lemma NoDup_set_of l : NoDup (set_of set_iter l).
Proof. apply NoDup_set_iter, NoDup_nodup. Qed.

(** The nodes of a view are the nodes of the graph that the bunch
    names, each once. *)
Lemma In_view_nodes G nbunch x :
  In x (view_nodes set_iter G nbunch) <-> In x nbunch /\ In x (nodes G).
Proof.
  unfold view_nodes. cbv zeta.
  assert (Hok : forall y,
    In y (set_of set_iter (filter (fun n => has_node n G) nbunch)) <->
    In y nbunch /\ In y (nodes G)).
  { intros y. rewrite In_set_of, filter_In, NxFacts.has_node_In. reflexivity. }
  destruct (2 * List.length _ <? List.length G)%nat.
  - apply Hok.
  - rewrite filter_In, StrFacts.mem_In, Hok. tauto.
Qed.

Lemma NoDup_view_nodes G nbunch :
  wf_graph G -> NoDup (view_nodes set_iter G nbunch).
Proof.
  intros Hwf. unfold view_nodes. cbv zeta.
  destruct (2 * List.length _ <? List.length G)%nat.
  - apply NoDup_set_of.
  - apply NoDup_filter, Hwf.
Qed.

(** The view over a set of nodes of the graph holds exactly this set. *)
Lemma view_nodes_perm G c :
  wf_graph G -> NoDup c -> incl c (nodes G) ->
  Permutation (view_nodes set_iter G (set_iter c)) c.
Proof.
  intros Hwf Hnd Hc. apply NoDup_Permutation; auto using NoDup_view_nodes.
  intros x. rewrite In_view_nodes, In_set_iter. split; [tauto | auto].
Qed.

End Views.

End ViewFacts.

(** ** Community detection *)

Module DetectFacts.

Import Nx WfFacts ComponentFacts ViewFacts Pipeline.

(** [from_networkx] gives no vertex attribute [name]. *)
Lemma no_name_attribute set_iter G nbunch i :
  vertex_attr (from_networkx set_iter G nbunch) "name" i = None.
Proof. reflexivity. Qed.

(** The names are where the program does not look for them. *)
Lemma nx_name_attribute set_iter G nbunch :
  Dict.get "_nx_name" (vs_attrs (from_networkx set_iter G nbunch))
  = Some (view_nodes set_iter G nbunch).
Proof. reflexivity. Qed.

Lemma vertex_names_raises g i rest :
  vertex_attr g "name" i = None -> vertex_names g (i :: rest) = None.
Proof. intros H. simpl. now rewrite H. Qed.

(** As soon as the view has a node, building the dictionary of names
    raises. *)
Lemma int_to_name_map_raises set_iter G nbunch :
  view_nodes set_iter G nbunch <> [] ->
  int_to_name_map (from_networkx set_iter G nbunch) = None.
Proof.
  intros H. unfold int_to_name_map.
  assert (E : vcount (from_networkx set_iter G nbunch)
              = List.length (view_nodes set_iter G nbunch)) by reflexivity.
  rewrite E. destruct (view_nodes set_iter G nbunch) as [|x l] eqn:Ev; [congruence|].
  simpl List.length. simpl seq. apply vertex_names_raises, no_name_attribute.
Qed.

Lemma fold_detect_step_raised set_iter find_partition G cs e :
  fold_left (detect_step set_iter find_partition G) cs (inr e) = inr e.
Proof. induction cs as [|c cs IH]; simpl; auto. Qed.

(** The first component is the one of the first node. *)
Lemma connected_components_head G v vs :
  Nx.nodes G = v :: vs ->
  connected_components G
  = plain_bfs G v :: components_loop G vs ([] ++ plain_bfs G v).
Proof. intros H. unfold connected_components. rewrite H. reflexivity. Qed.

Lemma In_plain_bfs_source G v : In v (plain_bfs G v).
Proof. apply grow_incl. now left. Qed.

(** A graph without nodes has no component and no community. *)
Lemma detect_communities_empty set_iter find_partition G :
  Nx.nodes G = [] -> detect_communities set_iter find_partition G = inl [].
Proof.
  intros H. unfold detect_communities, connected_components. now rewrite H.
Qed.

Section Detect.
Variable set_iter : list string -> list string.
Variable find_partition : IGraph -> option (list (list nat)).
Hypothesis set_iter_perm : forall l, Permutation (set_iter l) l.

(** A component that holds a node of the graph raises, whatever was
    found before and whatever the partition library would do. *)
Lemma detect_component_raises G all c v :
  In v c -> In v (Nx.nodes G) ->
  detect_component set_iter find_partition G all c = inr ATTRIBUTE_ERROR.
Proof.
  intros Hc Hv. unfold detect_component. cbv zeta.
  rewrite int_to_name_map_raises; auto.
  intros H.
  assert (Hin : In v (view_nodes set_iter G (set_iter c))).
  { apply (In_view_nodes set_iter set_iter_perm). split; auto.
    now apply (In_set_iter set_iter set_iter_perm). }
  rewrite H in Hin. destruct Hin.
Qed.

(** The first component of a graph that has a node raises, and the
    loop ends there. *)
Lemma detect_communities_raises G :
  Nx.nodes G <> [] ->
  detect_communities set_iter find_partition G = inr ATTRIBUTE_ERROR.
Proof.
  intros H. destruct (Nx.nodes G) as [|v vs] eqn:E; [congruence|].
  unfold detect_communities. rewrite (connected_components_head G v vs E).
  simpl fold_left.
  rewrite (detect_component_raises G [] (plain_bfs G v) v).
  - apply fold_detect_step_raised.
  - apply In_plain_bfs_source.
  - rewrite E. now left.
Qed.

Lemma detect_communities_cases G :
  detect_communities set_iter find_partition G
  = match Nx.nodes G with [] => inl [] | _ :: _ => inr ATTRIBUTE_ERROR end.
Proof.
  destruct (Nx.nodes G) as [|v vs] eqn:E.
  - now apply detect_communities_empty.
  - apply detect_communities_raises. congruence.
Qed.

End Detect.

End DetectFacts.

(** ** Claims about [detect_communities] *)

Module DetectClaims.

Import Nx WfFacts ComponentFacts ViewFacts Pipeline DetectFacts.

(** *** Concrete inputs

    Two summaries give a graph of three components; [solo_graph] is
    the graph of one node and no edge.  Sets are iterated backwards;
    [partition_stub] raises on a graph of one vertex, as the comment
    in [detect_communities] reports of the library, and otherwise puts
    every vertex in a community of its own; [raising_stub] raises on
    every graph. *)

Definition sample_summaries : list string :=
  [ ("Relationships:" ++ nl ++ "- Alice -> knows -> Bob" ++ nl
     ++ "- Carol -> mentors -> Dave" ++ nl ++ "- Bob -> likes -> Alice")%string;
    ("Relationships:" ++ nl ++ "- Eve -> is -> Eve")%string ].

Definition sample_graph : Graph := build_knowledge_graph sample_summaries.

Definition solo_graph : Graph := add_node "Solo" Nx.empty.

Definition backwards (l : list string) : list string := rev l.

Definition partition_stub (g : IGraph) : option (list (list nat)) :=
  if (vcount g <=? 1)%nat then None
  else Some (map (fun i => [i]) (seq 0 (vcount g))).

Definition raising_stub (g : IGraph) : option (list (list nat)) := None.

Lemma rev_perm (l : list string) : Permutation (backwards l) l.
Proof. apply Permutation_sym, Permutation_rev. Qed.

(** C1: [detect_communities] does not return a cover of the nodes.  On
    the graph of the single node [Solo] it raises the [KeyError] of
    the vertex attribute [name], which [from_networkx] does not
    create, where the specification has the one community [[Solo]]; the same
    happens on the sample graph of five nodes, and on every graph that
    has a node, whatever the order of sets and whatever the partition
    library does.  Only the graph without nodes gives a result, the
    empty list. *)
Theorem C1_detection_raises_on_every_node :
  detect_communities backwards partition_stub solo_graph = inr ATTRIBUTE_ERROR
  /\ Nx.nodes solo_graph = ["Solo"]
  /\ detect_communities backwards partition_stub sample_graph = inr ATTRIBUTE_ERROR
  /\ (forall set_iter find_partition G,
        (forall l, Permutation (set_iter l) l) ->
        Nx.nodes G <> [] ->
        detect_communities set_iter find_partition G = inr ATTRIBUTE_ERROR)
  /\ (forall set_iter find_partition G,
        Nx.nodes G = [] ->
        detect_communities set_iter find_partition G = inl []).
Proof.
  split; [vm_compute; reflexivity|].
  split; [vm_compute; reflexivity|].
  split; [vm_compute; reflexivity|].
  split.
  - intros set_iter find_partition G Hperm HG.
    now apply detect_communities_raises.
  - intros set_iter find_partition G HG. now apply detect_communities_empty.
Qed.

(** C2: the fallback is never reached.  On the component [[Eve]] of
    the sample graph, with a partition library that raises, the specification
    has the one community [[Eve]]; the program raises the [KeyError]
    of the vertex attribute [name] before the [try] is entered, and
    the whole detection raises with it instead of going on with the
    other components.  For every graph, every component that holds a
    node of the graph raises in this way whatever the partition
    library does, so the result of [detect_communities] does not
    depend on the partition library at all. *)
Theorem C2_fallback_never_reached :
  In ["Eve"] (connected_components sample_graph)
  /\ raising_stub (from_networkx backwards sample_graph (backwards ["Eve"])) = None
  /\ detect_component backwards raising_stub sample_graph [] ["Eve"]
     = inr ATTRIBUTE_ERROR
  /\ detect_communities backwards raising_stub sample_graph = inr ATTRIBUTE_ERROR
  /\ (forall set_iter find_partition G all_communities component v,
        (forall l, Permutation (set_iter l) l) ->
        In v component -> In v (Nx.nodes G) ->
        detect_component set_iter find_partition G all_communities component
        = inr ATTRIBUTE_ERROR)
  /\ (forall set_iter find_partition find_partition' G,
        (forall l, Permutation (set_iter l) l) ->
        detect_communities set_iter find_partition G
        = detect_communities set_iter find_partition' G).
Proof.
  split; [vm_compute; tauto|].
  split; [reflexivity|].
  split; [vm_compute; reflexivity|].
  split; [vm_compute; reflexivity|].
  split.
  - intros set_iter find_partition G all_communities component v Hperm Hc Hv.
    now apply detect_component_raises with v.
  - intros set_iter find_partition find_partition' G Hperm.
    now rewrite !detect_communities_cases.
Qed.

End DetectClaims.

(** ** Claims about [summarize_communities] *)

Module SummarizeFacts.

Import Str Pipeline.

Lemma append_assoc (a b c : string) : ((a ++ b) ++ c = a ++ (b ++ c))%string.
Proof. induction a as [|x a IH]; simpl; congruence. Qed.



Section Summarize.
Variable set_iter : list string -> list string.
Variable LLM : Type.
Variable get_response : LLM -> string -> string -> option string * LLM.

(** The record written for community [c] at position [k] by a handler
    in state [llm], and the state the call leaves. *)
Definition step_record (graph : Nx.Graph) (k : nat) (c : list string) (llm : LLM)
  : CommunitySummaryRecord * LLM :=
  let r := get_response llm (COMMUNITY_SUMMARY_PROMPT (community_data set_iter graph c)) "" in
  (mkRecord k c (summary_of (fst r)), snd r).

Lemma summarize_one_step graph acc llm k c :
  summarize_one set_iter LLM get_response graph (acc, llm) (k, c) =
  (acc ++ [fst (step_record graph k c llm)], snd (step_record graph k c llm)).
Proof.
  unfold summarize_one, step_record. cbv zeta.
  destruct (get_response llm _ "") as [[text|] llm']; reflexivity.
Qed.

(** The loop from position [k] on, unfolded one community at a time. *)
Fixpoint run_from (graph : Nx.Graph) (k : nat) (cs : list (list string)) (llm : LLM)
  : list CommunitySummaryRecord * LLM :=
  match cs with
  | [] => ([], llm)
  | c :: cs' =>
      let s := step_record graph k c llm in
      let rest := run_from graph (S k) cs' (snd s) in
      (fst s :: fst rest, snd rest)
  end.

Lemma enumerate_cons {A : Type} (k : nat) (c : A) (cs : list A) :
  enumerate k (c :: cs) = (k, c) :: enumerate (S k) cs.
Proof. reflexivity. Qed.

Lemma fold_summarize graph cs : forall k acc llm,
  fold_left (summarize_one set_iter LLM get_response graph) (enumerate k cs) (acc, llm) =
  (acc ++ fst (run_from graph k cs llm), snd (run_from graph k cs llm)).
Proof.
  induction cs as [|c cs IH]; intros k acc llm.
  - simpl. now rewrite app_nil_r.
  - rewrite enumerate_cons. cbn [fold_left run_from].
    rewrite summarize_one_step, IH. cbn [fst snd].
    now rewrite <- app_assoc.
Qed.

Lemma summarize_communities_run graph cs llm :
  summarize_communities set_iter LLM get_response cs graph llm = run_from graph 0 cs llm.
Proof.
  unfold summarize_communities. rewrite fold_summarize. simpl.
  now destruct (run_from graph 0 cs llm).
Qed.

Lemma run_from_state graph cs : forall k k' llm,
  snd (run_from graph k cs llm) = snd (run_from graph k' cs llm).
Proof.
  induction cs as [|c cs IH]; intros k k' llm; simpl; auto.
Qed.

Lemma run_from_ids graph cs : forall k llm,
  map community_id (fst (run_from graph k cs llm)) = seq k (List.length cs).
Proof.
  induction cs as [|c cs IH]; intros k llm; simpl; auto.
  now rewrite IH.
Qed.

Lemma run_from_nodes graph cs : forall k llm,
  map nodes (fst (run_from graph k cs llm)) = cs.
Proof.
  induction cs as [|c cs IH]; intros k llm; simpl; auto.
  now rewrite IH.
Qed.

Lemma run_from_nth graph cs : forall k llm i c,
  nth_error cs i = Some c ->
  nth_error (fst (run_from graph k cs llm)) i =
  Some (fst (step_record graph (k + i) c (snd (run_from graph k (firstn i cs) llm)))).
Proof.
  induction cs as [|c0 cs IH]; intros k llm i c Hi.
  - destruct i; discriminate.
  - destruct i as [|i]; simpl in *.
    + injection Hi as ->. now rewrite Nat.add_0_r.
    + rewrite (IH (S k) _ i c Hi). now rewrite Nat.add_succ_r.
Qed.

(** C3: the result has one record per community, in the order of the
    communities; the record at position [i] has [community_id = i] and
    the nodes of the community at position [i]; its summary is the
    answer of the call made for this community, and the fixed
    sentinel when that call raises, whatever the other calls do. *)
Theorem C3_one_record_per_community
  (communities : list (list string)) (graph : Nx.Graph) (llm : LLM) :
  let records := fst (summarize_communities set_iter LLM get_response communities graph llm) in
  List.length records = List.length communities
  /\ map community_id records = seq 0 (List.length communities)
  /\ map nodes records = communities
  /\ forall i c, nth_error communities i = Some c ->
       let response :=
         fst (get_response (llm_before set_iter LLM get_response communities graph llm i)
                (COMMUNITY_SUMMARY_PROMPT (community_data set_iter graph c)) "") in
       nth_error records i = Some (mkRecord i c (summary_of response))
       /\ (response = None ->
           nth_error records i = Some (mkRecord i c SUMMARY_SENTINEL)).
Proof.
  cbv zeta. rewrite summarize_communities_run.
  split; [|split; [|split]].
  - rewrite <- (length_map nodes), run_from_nodes. reflexivity.
  - apply run_from_ids.
  - apply run_from_nodes.
  - intros i c Hi. unfold llm_before. rewrite summarize_communities_run.
    rewrite (run_from_nth graph communities 0 llm i c Hi). simpl.
    split; [reflexivity|]. intros H. unfold step_record. simpl. now rewrite H.
Qed.

End Summarize.

(** Five communities and a handler whose third call raises: five
    records, the third one with the sentinel. *)
Definition counting_llm (calls : nat) (prompt content : string)
  : option string * nat :=
  (if Nat.eqb calls 2 then None else Some "a summary", S calls).

Lemma summarize_failure_isolated :
  map summary
    (fst (summarize_communities (fun l => l) nat counting_llm
            [["a"]; ["b"]; ["c"]; ["d"]; ["e"]] Nx.empty 0))
  = ["a summary"; "a summary"; SUMMARY_SENTINEL; "a summary"; "a summary"].
Proof. vm_compute. reflexivity. Qed.

End SummarizeFacts.

(** ** The rendering of a community *)

Module RenderFacts.

Import Str Nx WfFacts ViewFacts Pipeline SummarizeFacts.








Section Render.
Variable set_iter : list string -> list string.
Hypothesis set_iter_perm : forall l, Permutation (set_iter l) l.


End Render.



End RenderFacts.

(** ** Claims about the query stage *)

Module QueryClaims.

Import Query.

Section Main.
Variable LLM : Type.
Variable LLMHandler : string -> LLM + string.
Variable generate_global_answer : string -> Json -> LLM -> string + string.

(** C9: when the summaries file is missing, or is loaded and its
    content is empty, the run logs a diagnostic and ends: its events
    hold neither the construction of the handler of the language model
    nor a call of [generate_global_answer], and they are the same
    whatever the handler and the answerer would do. *)
Theorem C9_no_model_call_without_summaries (args : Args) (file : SummariesFile)
  (Hfile : file = Missing \/ exists content, file = Loaded content /\ truthy content = false) :
  let events := main LLM LLMHandler generate_global_answer args file in
  existsb is_model_event events = false
  /\ existsb is_diagnostic events = true
  /\ forall (LLM' : Type) (handler' : string -> LLM' + string)
            (answerer' : string -> Json -> LLM' -> string + string),
       main LLM' handler' answerer' args file = events.
Proof.
  cbv zeta. destruct Hfile as [->|[content [-> Hempty]]].
  - repeat split.
  - unfold main. rewrite Hempty. repeat split.
Qed.

(** A file that cannot be loaded ends the run in the same way. *)
Lemma unloadable_no_model_call (args : Args) (e : string) :
  existsb is_model_event (main LLM LLMHandler generate_global_answer args (Unloadable e)) = false.
Proof. reflexivity. Qed.

End Main.

Lemma C9_witness :
  let args := mkArgs "What is the main topic?" "output/community_summaries.json"
                     "Qwen/Qwen2-1.5B-Instruct" in
  let events := main unit (fun _ => inl tt) (fun _ _ _ => inl "an answer") args (Loaded (JArr [])) in
  existsb is_model_event events = false
  /\ existsb is_diagnostic events = true
  /\ forall (LLM' : Type) (handler' : string -> LLM' + string)
            (answerer' : string -> Json -> LLM' -> string + string),
       main LLM' handler' answerer' args (Loaded (JArr [])) = events.
Proof.
  exact (C9_no_model_call_without_summaries unit (fun _ => inl tt)
           (fun _ _ _ => inl "an answer")
           (mkArgs "What is the main topic?" "output/community_summaries.json"
                   "Qwen/Qwen2-1.5B-Instruct")
           (Loaded (JArr []))
           (or_intror (ex_intro _ (JArr []) (conj eq_refl eq_refl)))).
Defined.

(** With summaries present the handler is built and the answerer is
    called. *)
Lemma model_called_with_summaries :
  existsb is_model_event
    (main unit (fun _ => inl tt) (fun _ _ _ => inl "an answer")
       (mkArgs "q" "p" "m") (Loaded (JArr [JNull]))) = true.
Proof. reflexivity. Qed.

End QueryClaims.

(** ** The shape of matches and the names in the graph *)

Module ShapeFacts.

Import Str Re Shape Pipeline.

Section Inversion.
Context {R : Type}.

Lemma ws_star_inv (k : string -> option R) s r :
  ws_star k s = Some r ->
  exists w rest, s = (w ++ rest)%string /\ all_space w = true /\ k rest = Some r.
Proof.
  induction s as [|c s IH]; simpl; intros H.
  - exists EmptyString, EmptyString. auto.
  - destruct (is_space c) eqn:Ec.
    + destruct (ws_star k s) as [r'|] eqn:E.
      * injection H as ->. destruct (IH eq_refl) as [w [rest [-> [Hw Hk]]]].
        exists (String c w), rest. simpl. rewrite Ec, Hw. auto.
      * exists EmptyString, (String c s). auto.
    + exists EmptyString, (String c s). auto.
Qed.

Lemma lit_inv c (k : string -> option R) s r :
  lit c k s = Some r -> exists rest, s = String c rest /\ k rest = Some r.
Proof.
  destruct s as [|c' s]; simpl; [discriminate|].
  destruct (Ascii.eqb c c') eqn:E; [|discriminate].
  apply Ascii.eqb_eq in E. subst. eauto.
Qed.

Lemma arrow_inv (k : string -> option R) s r :
  arrow k s = Some r -> exists rest, s = ("->" ++ rest)%string /\ k rest = Some r.
Proof.
  unfold arrow. intros H. apply lit_inv in H. destruct H as [s1 [-> H]].
  apply lit_inv in H. destruct H as [s2 [-> H]].
  exists s2. split; [reflexivity | exact H].
Qed.

Lemma no_newline_app a b :
  no_newline (a ++ b) = no_newline a && no_newline b.
Proof.
  induction a as [|c a IH]; simpl; auto. rewrite IH. now rewrite andb_assoc.
Qed.

Lemma dot_plus_lazy_inv (k : string -> string -> option R) s : forall acc r,
  dot_plus_lazy k acc s = Some r ->
  exists g rest, s = (g ++ rest)%string /\ g <> EmptyString
    /\ no_newline g = true /\ k (acc ++ g)%string rest = Some r.
Proof.
  induction s as [|c s IH]; simpl; intros acc r H; [discriminate|].
  destruct (is_newline c) eqn:Ec; [discriminate|].
  destruct (k (acc ++ String c EmptyString)%string s) as [r'|] eqn:E.
  - injection H as ->. exists (String c EmptyString), s.
    simpl. rewrite Ec. repeat split; auto. discriminate.
  - apply IH in H. destruct H as [g [rest [-> [Hg [Hn Hk]]]]].
    exists (String c g), rest. simpl. rewrite Ec, Hn.
    repeat split; auto; [discriminate|].
    rewrite SummarizeFacts.append_assoc in Hk. exact Hk.
Qed.

Lemma eol_inv (k : string -> option R) s r :
  eol k s = Some r -> at_eol s = true /\ k s = Some r.
Proof.
  destruct s as [|c s]; simpl; auto.
  destruct (is_newline c); [auto | discriminate].
Qed.
End Inversion.

(** What the pattern matches has the shape of the pattern: white
    space, a dash, then three fields separated by arrows; each field
    is a group that is not empty and holds no line break, with white
    space allowed around it; the match ends where a line ends. *)
Theorem rel_pattern_at_shape s m rest :
  rel_pattern_at s = Some (m, rest) ->
  (exists w0 w1 w2 w3 w4 w5 w6,
     s = (w0 ++ "-" ++ w1 ++ group1 m ++ w2 ++ "->" ++ w3 ++ group2 m
          ++ w4 ++ "->" ++ w5 ++ group3 m ++ w6 ++ rest)%string
     /\ all_space w0 = true /\ all_space w1 = true /\ all_space w2 = true
     /\ all_space w3 = true /\ all_space w4 = true /\ all_space w5 = true
     /\ all_space w6 = true)
  /\ group1 m <> EmptyString /\ no_newline (group1 m) = true
  /\ group2 m <> EmptyString /\ no_newline (group2 m) = true
  /\ group3 m <> EmptyString /\ no_newline (group3 m) = true
  /\ at_eol rest = true.
Proof.
  unfold rel_pattern_at. intros H.
  apply ws_star_inv in H. destruct H as [w0 [s0 [-> [Hw0 H]]]].
  apply lit_inv in H. destruct H as [s1 [-> H]].
  apply ws_star_inv in H. destruct H as [w1 [s2 [-> [Hw1 H]]]].
  apply dot_plus_lazy_inv in H. destruct H as [g1 [s3 [-> [Hg1 [Hn1 H]]]]].
  apply ws_star_inv in H. destruct H as [w2 [s4 [-> [Hw2 H]]]].
  apply arrow_inv in H. destruct H as [s5 [-> H]].
  apply ws_star_inv in H. destruct H as [w3 [s6 [-> [Hw3 H]]]].
  apply dot_plus_lazy_inv in H. destruct H as [g2 [s7 [-> [Hg2 [Hn2 H]]]]].
  apply ws_star_inv in H. destruct H as [w4 [s8 [-> [Hw4 H]]]].
  apply arrow_inv in H. destruct H as [s9 [-> H]].
  apply ws_star_inv in H. destruct H as [w5 [s10 [-> [Hw5 H]]]].
  apply dot_plus_lazy_inv in H. destruct H as [g3 [s11 [-> [Hg3 [Hn3 H]]]]].
  apply ws_star_inv in H. destruct H as [w6 [s12 [-> [Hw6 H]]]].
  apply eol_inv in H. destruct H as [He H].
  injection H as <- <-. simpl.
  split; [|repeat split; auto].
  exists w0, w1, w2, w3, w4, w5, w6. repeat split; auto.
Qed.

(** Every match that [finditer] returns was found by the pattern at
    some place of the text. *)
Lemma finditer_from_at s : forall bol skip m,
  In m (finditer_from bol skip s) ->
  exists before here rest,
    s = (before ++ here)%string /\ rel_pattern_at here = Some (m, rest).
Proof.
  induction s as [|c s IH]; intros bol skip m H; simpl in H; [tauto|].
  assert (Hlater : forall b k, In m (finditer_from b k s) ->
            exists before here rest,
              String c s = (before ++ here)%string /\ rel_pattern_at here = Some (m, rest)).
  { intros b k Hin. destruct (IH b k m Hin) as [before [here [rest [-> Hat]]]].
    exists (String c before), here, rest. auto. }
  destruct skip as [|n]; [|eauto].
  destruct bol; [|eauto].
  destruct (rel_pattern_at (String c s)) as [[m' rest]|] eqn:E; [|eauto].
  destruct H as [<-|H]; [|eauto].
  exists EmptyString, (String c s), rest. auto.
Qed.

Lemma finditer_groups s m :
  In m (finditer s) ->
  (group1 m <> EmptyString /\ no_newline (group1 m) = true)
  /\ (group2 m <> EmptyString /\ no_newline (group2 m) = true)
  /\ (group3 m <> EmptyString /\ no_newline (group3 m) = true).
Proof.
  intros H. apply finditer_from_at in H.
  destruct H as [before [here [rest [_ Hat]]]].
  apply rel_pattern_at_shape in Hat. tauto.
Qed.

(** *** Trimming *)

Lemma no_newline_lstrip s : no_newline s = true -> no_newline (lstrip s) = true.
Proof.
  induction s as [|c s IH]; simpl; auto.
  intros H. apply andb_true_iff in H. destruct H as [Hc Hs].
  destruct (is_space c); auto. simpl. now rewrite Hc, Hs.
Qed.

Lemma no_newline_rstrip s : no_newline s = true -> no_newline (rstrip s) = true.
Proof.
  induction s as [|c s IH]; simpl; auto.
  intros H. apply andb_true_iff in H. destruct H as [Hc Hs].
  destruct (is_space c && is_empty (rstrip s)); auto.
  simpl. now rewrite Hc, IH.
Qed.

Lemma rstrip_idem s : rstrip (rstrip s) = rstrip s.
Proof.
  induction s as [|c s IH]; simpl; auto.
  destruct (is_space c && is_empty (rstrip s)) eqn:E; auto.
  simpl. rewrite IH, E. reflexivity.
Qed.

(** Trimming on the right keeps a first character that is no white
    space. *)
Lemma lstrip_rstrip_fixed s : lstrip s = s -> lstrip (rstrip s) = rstrip s.
Proof.
  destruct s as [|c s]; simpl; auto.
  destruct (is_space c) eqn:Ec; simpl.
  - intros H. exfalso.
    assert (Hlen : forall t, String.length (lstrip t) <= String.length t).
    { induction t as [|x t IHt]; simpl; auto. destruct (is_space x); simpl; lia. }
    specialize (Hlen s). rewrite H in Hlen. simpl in Hlen. lia.
  - intros _. now rewrite Ec.
Qed.

Lemma lstrip_idem s : lstrip (lstrip s) = lstrip s.
Proof.
  induction s as [|c s IH]; simpl; auto.
  destruct (is_space c) eqn:Ec; auto. simpl. now rewrite Ec.
Qed.

Lemma strip_idem s : strip (strip s) = strip s.
Proof.
  unfold strip. rewrite (lstrip_rstrip_fixed (lstrip s)) by apply lstrip_idem.
  apply rstrip_idem.
Qed.

Lemma no_newline_strip s : no_newline s = true -> no_newline (strip s) = true.
Proof. intros H. unfold strip. now apply no_newline_rstrip, no_newline_lstrip. Qed.

Lemma is_empty_false s : is_empty s = false -> s <> EmptyString.
Proof. destruct s; [discriminate | discriminate]. Qed.

(** Every field of a parsed triple is clean. *)
Lemma parsed_triples_clean ss t :
  In t (parsed_triples ss) ->
  clean (source t) /\ clean (relation t) /\ clean (target t).
Proof.
  intros H. apply BuildFacts.In_parsed_triples in H.
  destruct H as [s [_ [_ [m [Hm [Hok ->]]]]]].
  apply finditer_groups in Hm. destruct Hm as [[_ H1] [[_ H2] [_ H3]]].
  unfold malformed in Hok. apply orb_false_iff in Hok. destruct Hok as [Hok E3].
  apply orb_false_iff in Hok. destruct Hok as [E1 E2].
  unfold clean. simpl.
  repeat split; auto using is_empty_false, strip_idem, no_newline_strip.
Qed.

(** X4: every node name and every edge label of the graph that
    [build_knowledge_graph] returns is not empty, has no white space
    at its ends and holds no line break. *)
Theorem built_names_clean (element_summaries : list string) :
  let G := build_knowledge_graph element_summaries in
  (forall x, In x (Nx.nodes G) -> clean x)
  /\ (forall a b l, Nx.edge_label G a b = Some l -> clean l).
Proof.
  cbv zeta. rewrite BuildFacts.build_knowledge_graph_triples. split.
  - intros x Hx. apply BuildFacts.nodes_fold in Hx.
    destruct Hx as [[]|[t [Hin Hx]]].
    apply parsed_triples_clean in Hin. destruct Hx as [->| ->]; tauto.
  - intros a b l H. rewrite BuildFacts.edge_label_fold in H.
    destruct (last_writer a b (parsed_triples element_summaries)) as [t|] eqn:E;
      [|discriminate].
    injection H as <-. apply BuildFacts.last_writer_Some in E.
    destruct E as [Hin _]. apply parsed_triples_clean in Hin. tauto.
Qed.

End ShapeFacts.

(** ** More about [build_knowledge_graph] *)

Module BuildMore.

Import Str Pipeline BuildFacts.

Lemma last_writer_In a b ts t :
  In t ts -> touches a b t = true -> exists t', last_writer a b ts = Some t'.
Proof.
  intros Hin Ht. unfold last_writer.
  destruct (find (touches a b) (rev ts)) as [t'|] eqn:E; eauto.
  exfalso. apply in_rev in Hin.
  rewrite (find_none _ _ E t Hin) in Ht. discriminate.
Qed.

Lemma touches_self t : touches (source t) (target t) t = true.
Proof. unfold touches. now rewrite !String.eqb_refl. Qed.

(** X7: no relationship that was parsed is lost and no node stands
    alone: after any input the source and target of every parsed
    triple are joined by an edge, and every node of the graph has a
    neighbour. *)
Theorem built_graph_no_isolated_node (element_summaries : list string) :
  let G := build_knowledge_graph element_summaries in
  (forall t, In t (parsed_triples element_summaries) ->
     exists l, Nx.edge_label G (source t) (target t) = Some l)
  /\ (forall x, In x (Nx.nodes G) -> exists y l, Nx.edge_label G x y = Some l).
Proof.
  cbv zeta. rewrite build_knowledge_graph_triples.
  assert (Hedge : forall t, In t (parsed_triples element_summaries) ->
    exists l, Nx.edge_label
      (fold_left add_triple (parsed_triples element_summaries) Nx.empty)
      (source t) (target t) = Some l).
  { intros t Hin. rewrite edge_label_fold.
    destruct (last_writer_In _ _ _ t Hin (touches_self t)) as [t' ->]. eauto. }
  split; auto.
  intros x Hx. apply nodes_fold in Hx. destruct Hx as [[]|[t [Hin Hx]]].
  destruct (Hedge t Hin) as [l Hl]. destruct Hx as [->| ->].
  - eauto.
  - exists (source t), l.
    apply (WfFacts.wf_fold_add_triple _ _ WfFacts.wf_empty). exact Hl.
Qed.

Lemma nodes_add_node_app n G :
  exists new, Nx.nodes (Nx.add_node n G) = Nx.nodes G ++ new.
Proof.
  unfold Nx.add_node. destruct (Nx.has_node n G).
  - exists []. now rewrite app_nil_r.
  - exists [n]. unfold Nx.nodes, Dict.keys. now rewrite map_app.
Qed.

Lemma nodes_add_edge_eq a b l G :
  Nx.nodes (Nx.add_edge a b l G) = Nx.nodes (Nx.add_node b (Nx.add_node a G)).
Proof.
  unfold Nx.add_edge. cbv zeta.
  rewrite WfFacts.nodes_set_adj_eq.
  - apply WfFacts.nodes_set_adj_eq. rewrite !NxFacts.nodes_add_node. auto.
  - rewrite NxFacts.nodes_set_adj, !NxFacts.nodes_add_node. auto.
Qed.

Lemma nodes_add_node_present n G :
  In n (Nx.nodes G) -> Nx.nodes (Nx.add_node n G) = Nx.nodes G.
Proof.
  intros H. unfold Nx.add_node. apply NxFacts.has_node_In in H. now rewrite H.
Qed.

Lemma nodes_add_triple_app G t :
  exists new, Nx.nodes (add_triple G t) = Nx.nodes G ++ new.
Proof.
  unfold add_triple. rewrite nodes_add_edge_eq.
  rewrite !nodes_add_node_present
    by (rewrite !NxFacts.nodes_add_node; auto).
  destruct (nodes_add_node_app (source t) G) as [n1 H1].
  destruct (nodes_add_node_app (target t) (Nx.add_node (source t) G)) as [n2 H2].
  exists (n1 ++ n2). rewrite H2, H1, app_assoc. reflexivity.
Qed.

Lemma nodes_add_triple_present G t :
  In (source t) (Nx.nodes G) -> In (target t) (Nx.nodes G) ->
  Nx.nodes (add_triple G t) = Nx.nodes G.
Proof.
  intros Hs Ht. unfold add_triple. rewrite nodes_add_edge_eq.
  set (G1 := Nx.add_node (source t) G).
  assert (E1 : Nx.nodes G1 = Nx.nodes G) by now apply nodes_add_node_present.
  set (G2 := Nx.add_node (target t) G1).
  assert (E2 : Nx.nodes G2 = Nx.nodes G)
    by (unfold G2; rewrite nodes_add_node_present; rewrite ?E1; auto).
  set (G3 := Nx.add_node (source t) G2).
  assert (E3 : Nx.nodes G3 = Nx.nodes G)
    by (unfold G3; rewrite nodes_add_node_present; rewrite ?E2; auto).
  rewrite nodes_add_node_present; rewrite ?E3; auto.
Qed.

Lemma nodes_fold_app ts : forall G,
  exists new, Nx.nodes (fold_left add_triple ts G) = Nx.nodes G ++ new.
Proof.
  induction ts as [|t ts IH]; intros G; simpl.
  - exists []. now rewrite app_nil_r.
  - destruct (IH (add_triple G t)) as [n2 H2].
    destruct (nodes_add_triple_app G t) as [n1 H1].
    exists (n1 ++ n2). rewrite H2, H1, app_assoc. reflexivity.
Qed.

Lemma nodes_fold_present ts : forall G,
  (forall t, In t ts -> In (source t) (Nx.nodes G) /\ In (target t) (Nx.nodes G)) ->
  Nx.nodes (fold_left add_triple ts G) = Nx.nodes G.
Proof.
  induction ts as [|t ts IH]; intros G H; simpl; auto.
  assert (E : Nx.nodes (add_triple G t) = Nx.nodes G).
  { apply nodes_add_triple_present; apply H; now left. }
  rewrite IH, E; auto.
  intros t' Ht'. rewrite E. apply H. now right.
Qed.

(** X8: more input only adds to the graph: the nodes found so far keep
    their places at the front of the node list, and a pair that is
    joined stays joined (its label may be rewritten). *)
Theorem build_knowledge_graph_grows (summaries more : list string) :
  let G := build_knowledge_graph summaries in
  let G' := build_knowledge_graph (summaries ++ more) in
  (exists new, Nx.nodes G' = Nx.nodes G ++ new)
  /\ (forall a b l, Nx.edge_label G a b = Some l ->
        exists l', Nx.edge_label G' a b = Some l').
Proof.
  cbv zeta. rewrite !build_knowledge_graph_triples, parsed_triples_app, fold_left_app.
  split; [apply nodes_fold_app|].
  intros a b l H. rewrite edge_label_fold.
  destruct (last_writer a b (parsed_triples more)); eauto.
Qed.

Lemma find_app_twice {A : Type} (f : A -> bool) (l : list A) :
  find f (l ++ l) = find f l.
Proof.
  assert (H : forall l', find f (l ++ l') =
            match find f l with Some x => Some x | None => find f l' end).
  { induction l as [|a l0 IH]; intros l'; simpl; auto. destruct (f a); auto. }
  rewrite H. now destruct (find f l).
Qed.

(** X9: reading the same summaries a second time changes nothing that
    can be observed: the node list and every label stay as they
    were. *)
Theorem build_knowledge_graph_twice (element_summaries : list string) :
  let G := build_knowledge_graph element_summaries in
  let G2 := build_knowledge_graph (element_summaries ++ element_summaries) in
  Nx.nodes G2 = Nx.nodes G
  /\ forall a b, Nx.edge_label G2 a b = Nx.edge_label G a b.
Proof.
  cbv zeta. rewrite !build_knowledge_graph_triples, parsed_triples_app. split.
  - rewrite fold_left_app. apply nodes_fold_present.
    intros t Ht. split; apply nodes_fold; right; exists t; auto.
  - intros a b. rewrite !edge_label_fold. unfold last_writer.
    rewrite rev_app_distr, find_app_twice. reflexivity.
Qed.

End BuildMore.

Module BuildInvariant.

Import Pipeline.

(** X6: the graph that [build_knowledge_graph] returns is a proper
    undirected graph: its nodes are distinct, the neighbours of a node
    are distinct, and every neighbour of a node is a node that has
    this node as a neighbour under the same label. *)
Theorem built_graph_well_formed (element_summaries : list string) :
  let G := build_knowledge_graph element_summaries in
  NoDup (Nx.nodes G)
  /\ (forall u, NoDup (Dict.keys (Nx.adj G u)))
  /\ (forall u v l, Nx.edge_label G u v = Some l ->
        In u (Nx.nodes G) /\ In v (Nx.nodes G) /\ Nx.edge_label G v u = Some l).
Proof.
  cbv zeta. pose proof (WfFacts.wf_build_knowledge_graph element_summaries) as Hwf.
  split; [apply Hwf|]. split; [apply Hwf|].
  intros u v l H.
  assert (Hadj : Nx.adjacent (build_knowledge_graph element_summaries) u v)
    by (apply WfFacts.adjacent_label; eauto).
  split; [now apply WfFacts.adjacent_node_l with v|].
  split; [now apply WfFacts.adjacent_node_r with u|].
  now apply Hwf.
Qed.

End BuildInvariant.

(** ** Detection on the graphs that [build_knowledge_graph] returns *)

Module DetectMore.

Import Nx Pipeline BuildFacts DetectFacts.

Lemma built_nodes_nil (element_summaries : list string) :
  Nx.nodes (build_knowledge_graph element_summaries) = [] <->
  parsed_triples element_summaries = [].
Proof.
  rewrite build_knowledge_graph_triples. split.
  - intros H. destruct (parsed_triples element_summaries) as [|t ts] eqn:E; auto.
    exfalso.
    assert (Hin : In (source t) (Nx.nodes (fold_left add_triple (t :: ts) Nx.empty))).
    { apply nodes_fold. right. exists t. split; [now left | now left]. }
    rewrite H in Hin. destruct Hin.
  - intros ->. reflexivity.
Qed.

(** X12: on the graph that [build_knowledge_graph] returns, detection
    gives a result only when no triple was parsed, and then the empty
    list; as soon as the input holds one triple, [detect_communities]
    raises the [KeyError] of the vertex attribute [name], whatever
    the order of sets and the partition library. *)
Theorem built_graph_detection
  (set_iter : list string -> list string)
  (find_partition : IGraph -> option (list (list nat)))
  (set_iter_perm : forall l, Permutation (set_iter l) l)
  (element_summaries : list string) :
  detect_communities set_iter find_partition (build_knowledge_graph element_summaries)
  = match parsed_triples element_summaries with
    | [] => inl []
    | _ :: _ => inr ATTRIBUTE_ERROR
    end.
Proof.
  rewrite detect_communities_cases by assumption.
  destruct (parsed_triples element_summaries) as [|t ts] eqn:E.
  - apply built_nodes_nil in E. now rewrite E.
  - destruct (Nx.nodes (build_knowledge_graph element_summaries)) eqn:En; auto.
    apply built_nodes_nil in En. congruence.
Qed.

Lemma built_graph_detection_witness :
  parsed_triples DetectClaims.sample_summaries
  = [mkTriple "Alice" "knows" "Bob"; mkTriple "Carol" "mentors" "Dave";
     mkTriple "Bob" "likes" "Alice"; mkTriple "Eve" "is" "Eve"]
  /\ detect_communities DetectClaims.backwards DetectClaims.partition_stub
       (build_knowledge_graph DetectClaims.sample_summaries)
     = inr ATTRIBUTE_ERROR.
Proof.
  split; [vm_compute; reflexivity|].
  exact (built_graph_detection DetectClaims.backwards DetectClaims.partition_stub
           DetectClaims.rev_perm DetectClaims.sample_summaries).
Defined.

End DetectMore.

(** ** The requests sent to the language model *)

Module CallFacts.

Import Str Pipeline.

Section Calls.
Variable set_iter : list string -> list string.
Variable LLM : Type.
Variable get_response : LLM -> string -> string -> option string * LLM.

(** The element kept for a text unit by a handler in state [llm], and
    the state the call leaves. *)
Definition step_element (chunk : string) (llm : LLM) : string * LLM :=
  let r := get_response llm ENTITY_EXTRACTION_PROMPT chunk in
  (match fst r with Some response => response | None => EXTRACTION_SENTINEL end,
   snd r).

Fixpoint extract_from (text_units : list string) (llm : LLM) : list string * LLM :=
  match text_units with
  | [] => ([], llm)
  | chunk :: rest =>
      let s := step_element chunk llm in
      let r := extract_from rest (snd s) in
      (fst s :: fst r, snd r)
  end.

Lemma extract_one_step elements llm chunk :
  extract_one LLM get_response (elements, llm) chunk =
  (elements ++ [fst (step_element chunk llm)], snd (step_element chunk llm)).
Proof.
  unfold extract_one, step_element. cbv zeta.
  destruct (get_response llm _ chunk) as [[r|] llm']; reflexivity.
Qed.

Lemma fold_extract text_units : forall acc llm,
  fold_left (extract_one LLM get_response) text_units (acc, llm) =
  (acc ++ fst (extract_from text_units llm), snd (extract_from text_units llm)).
Proof.
  induction text_units as [|chunk rest IH]; intros acc llm.
  - simpl. now rewrite app_nil_r.
  - cbn [fold_left extract_from]. rewrite extract_one_step, IH. cbn [fst snd].
    now rewrite <- app_assoc.
Qed.

Lemma extract_run text_units llm :
  extract_entities_relationships LLM get_response text_units llm =
  extract_from text_units llm.
Proof.
  unfold extract_entities_relationships. rewrite fold_extract. simpl.
  now destruct (extract_from text_units llm).
Qed.

Lemma extract_from_length text_units : forall llm,
  List.length (fst (extract_from text_units llm)) = List.length text_units.
Proof.
  induction text_units as [|chunk rest IH]; intros llm; simpl; auto.
Qed.

Lemma extract_from_nth text_units : forall llm i chunk,
  nth_error text_units i = Some chunk ->
  nth_error (fst (extract_from text_units llm)) i =
  Some (fst (step_element chunk (snd (extract_from (firstn i text_units) llm)))).
Proof.
  induction text_units as [|c0 rest IH]; intros llm i chunk Hi.
  - destruct i; discriminate.
  - destruct i as [|i]; simpl in *.
    + now injection Hi as ->.
    + now rewrite (IH _ i chunk Hi).
Qed.

(** X1: [extract_entities_relationships] returns one element per text
    unit, in the order of the text units; the element at position [i]
    is the answer of the call made for unit [i], and the fixed
    sentinel when that call raises; a failed call stops nothing. *)
Theorem extract_one_element_per_unit (text_units : list string) (llm : LLM) :
  let elements := fst (extract_entities_relationships LLM get_response text_units llm) in
  List.length elements = List.length text_units
  /\ forall i chunk, nth_error text_units i = Some chunk ->
       let llm_i := snd (extract_entities_relationships LLM get_response
                           (firstn i text_units) llm) in
       nth_error elements i =
       Some (match fst (get_response llm_i ENTITY_EXTRACTION_PROMPT chunk) with
             | Some response => response
             | None => EXTRACTION_SENTINEL
             end).
Proof.
  cbv zeta. rewrite extract_run. split.
  - apply extract_from_length.
  - intros i chunk Hi. rewrite extract_run.
    now rewrite (extract_from_nth text_units llm i chunk Hi).
Qed.

Lemma fold_extract_logged text_units : forall acc llm log,
  fold_left (extract_one (Logged.State LLM) (Logged.get_response_logged LLM get_response))
            text_units (acc, (llm, log)) =
  (fst (fold_left (extract_one LLM get_response) text_units (acc, llm)),
   (snd (fold_left (extract_one LLM get_response) text_units (acc, llm)),
    log ++ map (fun chunk => (ENTITY_EXTRACTION_PROMPT, chunk)) text_units)).
Proof.
  induction text_units as [|chunk rest IH]; intros acc llm log.
  - simpl. now rewrite app_nil_r.
  - cbn [fold_left map].
    assert (E : extract_one (Logged.State LLM)
                  (Logged.get_response_logged LLM get_response) (acc, (llm, log)) chunk =
                (fst (extract_one LLM get_response (acc, llm) chunk),
                 (snd (extract_one LLM get_response (acc, llm) chunk),
                  log ++ [(ENTITY_EXTRACTION_PROMPT, chunk)]))).
    { unfold extract_one, Logged.get_response_logged.
      destruct (get_response llm ENTITY_EXTRACTION_PROMPT chunk) as [[r|] llm'];
        reflexivity. }
    rewrite E, IH.
    destruct (extract_one LLM get_response (acc, llm) chunk) as [acc' llm'].
    cbn [fst snd]. now rewrite <- app_assoc.
Qed.

(** X2: extraction sends exactly one request per text unit, in the
    order of the text units, each with the extraction prompt as
    instruction and the text of the unit as content; keeping the list
    of requests changes no element. *)
Theorem extract_requests (text_units : list string) (llm : LLM) :
  let logged :=
    extract_entities_relationships (Logged.State LLM)
      (Logged.get_response_logged LLM get_response) text_units (llm, []) in
  fst logged = fst (extract_entities_relationships LLM get_response text_units llm)
  /\ snd (snd logged) = map (fun chunk => (ENTITY_EXTRACTION_PROMPT, chunk)) text_units.
Proof.
  cbv zeta. unfold extract_entities_relationships.
  rewrite fold_extract_logged. simpl. auto.
Qed.

Lemma fold_summarize_logged graph cs : forall k acc llm log,
  fold_left (summarize_one set_iter (Logged.State LLM)
               (Logged.get_response_logged LLM get_response) graph)
            (enumerate k cs) (acc, (llm, log)) =
  (fst (fold_left (summarize_one set_iter LLM get_response graph) (enumerate k cs) (acc, llm)),
   (snd (fold_left (summarize_one set_iter LLM get_response graph) (enumerate k cs) (acc, llm)),
    log ++ map (fun c => (COMMUNITY_SUMMARY_PROMPT (community_data set_iter graph c),
                          EmptyString)) cs)).
Proof.
  induction cs as [|c cs IH]; intros k acc llm log.
  - simpl. now rewrite app_nil_r.
  - rewrite SummarizeFacts.enumerate_cons. cbn [fold_left map].
    assert (E : summarize_one set_iter (Logged.State LLM)
                  (Logged.get_response_logged LLM get_response) graph
                  (acc, (llm, log)) (k, c) =
                (fst (summarize_one set_iter LLM get_response graph (acc, llm) (k, c)),
                 (snd (summarize_one set_iter LLM get_response graph (acc, llm) (k, c)),
                  log ++ [(COMMUNITY_SUMMARY_PROMPT (community_data set_iter graph c),
                           EmptyString)]))).
    { unfold summarize_one, Logged.get_response_logged. cbv zeta.
      destruct (get_response llm _ "") as [[r|] llm']; reflexivity. }
    rewrite E, IH.
    destruct (summarize_one set_iter LLM get_response graph (acc, llm) (k, c)) as [acc' llm'].
    cbn [fst snd]. now rewrite <- app_assoc.
Qed.

(** X15: summarization sends exactly one request per community, in the
    order of the communities; the instruction is the summary prompt
    filled with the text built for the community and the content is
    empty; keeping the list of requests changes no record. *)
Theorem summarize_requests (communities : list (list string)) (graph : Nx.Graph)
        (llm : LLM) :
  let logged :=
    summarize_communities set_iter (Logged.State LLM)
      (Logged.get_response_logged LLM get_response) communities graph (llm, []) in
  fst logged = fst (summarize_communities set_iter LLM get_response communities graph llm)
  /\ snd (snd logged) =
     map (fun c => (COMMUNITY_SUMMARY_PROMPT (community_data set_iter graph c),
                    EmptyString)) communities.
Proof.
  cbv zeta. unfold summarize_communities.
  rewrite fold_summarize_logged. simpl. auto.
Qed.

End Calls.

End CallFacts.

(** ** More about the rendering of a community *)

Module RenderMore.

Import Str Nx ViewFacts Pipeline SummarizeFacts RenderFacts.

Section More.
Variable set_iter : list string -> list string.
Hypothesis set_iter_perm : forall l, Permutation (set_iter l) l.


End More.


End RenderMore.

(** ** More about the query stage *)

Module QueryMore.

Import Query.

Definition COMPLETED : string := "GraphRAG Query Pipeline COMPLETED successfully.".

Section More.
Variable LLM : Type.
Variable LLMHandler : string -> LLM + string.
Variable generate_global_answer : string -> Json -> LLM -> string + string.




(** A summaries file whose content is true or a number other than
    zero passes the emptiness check but has no length: the run fails
    while it logs how many summaries it loaded, before the handler of
    the language model is built. *)
Theorem scalar_content_stops_before_model (args : Args) (content : Json)
  (Htruthy : truthy content = true) (Hlen : len content = None) :
  let events := main LLM LLMHandler generate_global_answer args (Loaded content) in
  existsb is_model_event events = false
  /\ existsb is_diagnostic events = true
  /\ ((exists n, content = JNum (S n)) \/ content = JBool true).
Proof.
  cbv zeta. unfold main. rewrite Htruthy, Hlen. simpl.
  split; auto. split; auto.
  destruct content as [|b|n|s|items|members]; try discriminate.
  - right. simpl in Htruthy. now subst.
  - left. destruct n; [discriminate | eauto].
Qed.

End More.

Lemma scalar_content_witness :
  let events := main unit (fun _ => inl tt) (fun _ _ _ => inl "an answer")
                     (mkArgs "q" "p" "m") (Loaded (JNum 5)) in
  existsb is_model_event events = false
  /\ existsb is_diagnostic events = true
  /\ ((exists n, JNum 5 = JNum (S n)) \/ JNum 5 = JBool true).
Proof.
  exact (scalar_content_stops_before_model unit (fun _ => inl tt)
           (fun _ _ _ => inl "an answer") (mkArgs "q" "p" "m") (JNum 5)
           eq_refl eq_refl).
Defined.

End QueryMore.

(** ** The indexing stage *)

Module IndexingFacts.

Import Indexing.

#[local] Arguments path_join : simpl never.

Definition is_work_event (e : Event) : bool :=
  match e with
  | LLMHandlerInit _ | MakeDirs _ | WriteGml _ _ | DumpJson _ _ => true
  | _ => false
  end.

Definition is_critical (e : Event) : bool :=
  match e with
  | LogCritical _ => true
  | _ => false
  end.

Definition is_output_event (e : Event) : bool :=
  match e with
  | MakeDirs _ | WriteGml _ _ | DumpJson _ _ => true
  | _ => false
  end.

Definition COMPLETED : string := "GraphRAG Indexing Pipeline COMPLETED successfully.".

Ltac step_run :=
  match goal with
  | |- context [match ?x with _ => _ end] => destruct x eqn:?; simpl
  end.

Section Facts.
Variable set_iter : list string -> list string.
Variable find_partition : Pipeline.IGraph -> option (list (list nat)).
Variable LLM : Type.
Variable LLMHandler : string -> LLM + string.
Variable get_response : LLM -> string -> string -> option string * LLM.
Variable download_pdf : string -> string -> unit + string.
Variable path_exists : string -> bool.
Variable load_and_split_docs : string -> option (list string) + string.
Variable makedirs : string -> unit + string.
Variable write_gml : Nx.Graph -> string -> unit + string.
Variable dump_json : list Pipeline.CommunitySummaryRecord -> string -> unit + string.

(** The run of [main] in this environment. *)
Definition run (args : Args) : list Event :=
  main set_iter find_partition LLM LLMHandler get_response download_pdf
       path_exists load_and_split_docs makedirs write_gml dump_json args.

(** X19: when the PDF is not there after the download step, or the
    loader raises, returns nothing or returns no text unit, the run
    logs a critical message and does no work: the handler of the
    language model is not built, no directory is made and no artifact
    is written. *)
Theorem setup_failure_does_no_work (args : Args)
  (Hsetup : path_exists (pdf_path args) = false
            \/ (exists e, load_and_split_docs (pdf_path args) = inr e)
            \/ (exists df, load_and_split_docs (pdf_path args) = inl df
                           /\ no_text_units df = true)) :
  existsb is_work_event (run args) = false
  /\ existsb is_critical (run args) = true.
Proof.
  unfold run, main, body, bind, call, emit, stop, ret, result.
  destruct (Str.is_empty (pdf_url args)); simpl.
  - destruct (path_exists (pdf_path args)) eqn:Ep; simpl; auto.
    destruct (load_and_split_docs (pdf_path args)) as [df|e] eqn:El; simpl; auto.
    destruct (no_text_units df) eqn:En; simpl; auto.
    exfalso. destruct Hsetup as [H|[[e H]|[df' [H H']]]]; congruence.
  - destruct (download_pdf (pdf_url args) (pdf_path args)) as [[]|e]; simpl; auto.
    destruct (path_exists (pdf_path args)) eqn:Ep; simpl; auto.
    destruct (load_and_split_docs (pdf_path args)) as [df|e] eqn:El; simpl; auto.
    destruct (no_text_units df) eqn:En; simpl; auto.
    exfalso. destruct Hsetup as [H|[[e H]|[df' [H H']]]]; congruence.
Qed.

Lemma index_spec llm text_units :
  let extracted :=
    Pipeline.extract_entities_relationships LLM get_response text_units llm in
  let graph := Pipeline.build_knowledge_graph (fst extracted) in
  index set_iter find_partition LLM get_response llm text_units =
  match Pipeline.detect_communities set_iter find_partition graph with
  | inr e => inr e
  | inl communities =>
      inl (graph,
           fst (Pipeline.summarize_communities set_iter LLM get_response
                  communities graph (snd extracted)))
  end.
Proof.
  cbv zeta. unfold index.
  destruct (Pipeline.extract_entities_relationships LLM get_response text_units llm)
    as [elements llm1]. simpl.
  destruct (Pipeline.detect_communities set_iter find_partition _) as [cs|e]; auto.
  now destruct (Pipeline.summarize_communities set_iter LLM get_response _ _ llm1).
Qed.

(** A graph without nodes goes through detection and summarization
    and leaves no record. *)
Lemma index_empty_graph llm text_units :
  Nx.nodes (Pipeline.build_knowledge_graph
              (fst (Pipeline.extract_entities_relationships
                      LLM get_response text_units llm))) = [] ->
  index set_iter find_partition LLM get_response llm text_units = inl (Nx.empty, []).
Proof.
  intros H. rewrite index_spec. cbv zeta.
  rewrite DetectFacts.detect_communities_empty by exact H.
  unfold Nx.nodes, Dict.keys in H. apply map_eq_nil in H. rewrite H. reflexivity.
Qed.

Definition graph_path (args : Args) : string :=
  path_join (output_dir args) "knowledge_graph.gml".

Definition summaries_path (args : Args) : string :=
  path_join (output_dir args) "community_summaries.json".

Ltac in_cases H :=
  simpl in H;
  repeat (destruct H as [H|H]; [try discriminate H|]);
  try contradiction.

Ltac after_download args :=
  (destruct (path_exists (pdf_path args)); simpl; [|intros H; in_cases H]);
  (destruct (load_and_split_docs (pdf_path args)) as [df|?]; simpl;
     [|intros H; in_cases H]);
  (destruct (no_text_units df) eqn:En; simpl; [intros H; in_cases H|]);
  (destruct (LLMHandler (model_name args)) as [llm|?]; simpl;
     [|intros H; in_cases H]);
  (destruct (index set_iter find_partition LLM get_response llm (text_units_of df))
     as [[G cs]|?] eqn:Ei; simpl; [|intros H; in_cases H]);
  (destruct (makedirs (output_dir args)) as [[]|?]; simpl; [|intros H; in_cases H]);
  (destruct (write_gml G (path_join (output_dir args) "knowledge_graph.gml"))
     as [[]|?] eqn:Ew; simpl; [|intros H; in_cases H]);
  (destruct (dump_json cs (path_join (output_dir args) "community_summaries.json"))
     as [[]|?] eqn:Ed; simpl);
  intros H; in_cases H.

(** What a run that dumps summaries went through. *)
Lemma dump_event_inv (args : Args) rs p :
  In (DumpJson rs p) (run args) ->
  exists df llm G,
    load_and_split_docs (pdf_path args) = inl df /\ no_text_units df = false
    /\ LLMHandler (model_name args) = inl llm
    /\ index set_iter find_partition LLM get_response llm (text_units_of df)
       = inl (G, rs)
    /\ write_gml G (graph_path args) = inl tt
    /\ p = summaries_path args
    /\ In (WriteGml G (graph_path args)) (run args).
Proof.
  unfold run, main, body, bind, call, emit, stop, ret, result, graph_path,
    summaries_path.
  destruct (Str.is_empty (pdf_url args)); simpl.
  - after_download args; injection H as <- <-;
      exists df, llm, G; repeat split; auto; simpl; tauto.
  - destruct (download_pdf (pdf_url args) (pdf_path args)) as [[]|e]; simpl.
    + after_download args; injection H as <- <-;
        exists df, llm, G; repeat split; auto; simpl; tauto.
    + intros H; in_cases H.
Qed.

Ltac destruct_run args :=
  unfold run, main, body, bind, call, emit, stop, ret, result, graph_path,
    summaries_path;
  destruct (Str.is_empty (pdf_url args)) eqn:Ee; simpl;
  [|destruct (download_pdf (pdf_url args) (pdf_path args)) as [[]|?] eqn:Edl; simpl];
  match goal with
  | |- context [path_exists (pdf_path args)] =>
      destruct (path_exists (pdf_path args)) eqn:Ep; simpl;
      [destruct (load_and_split_docs (pdf_path args)) as [df|?] eqn:El; simpl;
       [destruct (no_text_units df) eqn:En; simpl;
        [|destruct (LLMHandler (model_name args)) as [llm|?] eqn:Eh; simpl;
          [destruct (index set_iter find_partition LLM get_response llm (text_units_of df))
             as [[G cs]|?] eqn:Ei; simpl;
           [destruct (makedirs (output_dir args)) as [[]|?] eqn:Em; simpl;
            [destruct (write_gml G (path_join (output_dir args) "knowledge_graph.gml"))
               as [[]|?] eqn:Ew; simpl;
             [destruct (dump_json cs (path_join (output_dir args) "community_summaries.json"))
                as [[]|?] eqn:Ed; simpl|]|]|]|]]|]|]
  | _ => idtac
  end.

Definition is_completed (e : Event) : bool :=
  match e with
  | LogInfo message => String.eqb message COMPLETED
  | _ => false
  end.

(** What a run that writes the graph went through. *)
Lemma write_event_inv (args : Args) graph gp :
  In (WriteGml graph gp) (run args) ->
  exists df llm rs,
    load_and_split_docs (pdf_path args) = inl df
    /\ LLMHandler (model_name args) = inl llm
    /\ index set_iter find_partition LLM get_response llm (text_units_of df)
       = inl (graph, rs)
    /\ gp = graph_path args.
Proof.
  destruct_run args; intros H; in_cases H;
    injection H as <- <-; exists df, llm, cs; auto.
Qed.

(** X20: a run ends in exactly one of two ways, with the message that
    it completed or with a critical message.  When it completed, the
    graph and then the summaries were written and both writes
    returned.  When writing the graph raises, the summaries are not
    written. *)
Theorem indexing_run_outcome (args : Args) :
  existsb is_critical (run args) = negb (existsb is_completed (run args))
  /\ (existsb is_completed (run args) = true ->
      exists G rs,
        In (WriteGml G (graph_path args)) (run args)
        /\ In (DumpJson rs (summaries_path args)) (run args)
        /\ write_gml G (graph_path args) = inl tt
        /\ dump_json rs (summaries_path args) = inl tt)
  /\ (forall G gp e, In (WriteGml G gp) (run args) -> write_gml G gp = inr e ->
      forall rs p, ~ In (DumpJson rs p) (run args)).
Proof.
  split; [|split].
  - destruct_run args; reflexivity.
  - destruct_run args; intros H; try discriminate H;
      exists G, cs; repeat split; auto; simpl; tauto.
  - intros G gp e Hw Hfail rs p Hd.
    apply write_event_inv in Hw. destruct Hw as [df [llm [rs' [Hl [Hh [Hi ->]]]]]].
    apply dump_event_inv in Hd.
    destruct Hd as [df' [llm' [G' [Hl' [_ [Hh' [Hi' [Hok _]]]]]]]].
    assert (df' = df) by congruence. subst df'.
    assert (llm' = llm) by congruence. subst llm'.
    assert (G' = G) by congruence. subst G'. congruence.
Qed.

Hypothesis set_iter_perm : forall l, Permutation (set_iter l) l.

(** What the four functions of the pipeline come to: nothing for a
    graph without nodes, the [KeyError] of [detect_communities] for
    any other. *)
Lemma index_cases llm text_units :
  index set_iter find_partition LLM get_response llm text_units =
  match Nx.nodes (Pipeline.build_knowledge_graph
                    (fst (Pipeline.extract_entities_relationships
                            LLM get_response text_units llm))) with
  | [] => inl (Nx.empty, [])
  | _ :: _ => inr Pipeline.ATTRIBUTE_ERROR
  end.
Proof.
  destruct (Nx.nodes _) as [|v vs] eqn:E.
  - now apply index_empty_graph.
  - rewrite index_spec. cbv zeta.
    rewrite DetectFacts.detect_communities_raises; auto. congruence.
Qed.

(** X21: a run that gets as far as the language model and builds a
    graph with at least one node fails: after the handler is built the
    [KeyError] of [detect_communities] reaches [main], which logs it
    as critical; no directory is made, no artifact is written and the
    message of completion is not logged. *)
Theorem nonempty_graph_fails_run (args : Args)
  (loaded : option (list string)) (model : LLM)
  (Hdownload : Str.is_empty (pdf_url args) = true
               \/ download_pdf (pdf_url args) (pdf_path args) = inl tt)
  (Hpdf : path_exists (pdf_path args) = true)
  (Hload : load_and_split_docs (pdf_path args) = inl loaded)
  (Hunits : no_text_units loaded = false)
  (Hhandler : LLMHandler (model_name args) = inl model)
  (Hnode : Nx.nodes (Pipeline.build_knowledge_graph
                       (fst (Pipeline.extract_entities_relationships
                               LLM get_response (text_units_of loaded) model))) <> []) :
  In (LLMHandlerInit (model_name args)) (run args)
  /\ In (LogCritical ("Indexing pipeline failed: " ++ Pipeline.ATTRIBUTE_ERROR))
        (run args)
  /\ existsb is_output_event (run args) = false
  /\ existsb is_completed (run args) = false.
Proof.
  assert (Hi : index set_iter find_partition LLM get_response model (text_units_of loaded)
               = inr Pipeline.ATTRIBUTE_ERROR).
  { rewrite index_cases. destruct (Nx.nodes _); [congruence | reflexivity]. }
  destruct_run args; try congruence;
    try (destruct Hdownload; congruence);
    assert (df = loaded) by congruence; subst df;
    assert (llm = model) by congruence; subst llm;
    rewrite Hi in *; try discriminate;
    match goal with E : inr _ = inr _ |- _ => injection E as <- end;
    simpl; tauto.
Qed.

(** X22: from indexing to querying: whatever a run dumps as summaries
    is the empty list, written next to the empty graph; the query stage
    that loads it stops with the message that the file is empty,
    before the handler of the language model is built. *)
Theorem indexed_summaries_stop_query (args : Args)
  (rs : list Pipeline.CommunitySummaryRecord) (p : string)
  (Hdump : In (DumpJson rs p) (run args)) :
  rs = []
  /\ p = summaries_path args
  /\ In (WriteGml Nx.empty (graph_path args)) (run args)
  /\ forall (LLMq : Type) (handler : string -> LLMq + string)
            (answerer : string -> Query.Json -> LLMq -> string + string)
            (qargs : Query.Args),
       let events :=
         Query.main LLMq handler answerer qargs (Query.Loaded (summaries_json rs)) in
       existsb Query.is_model_event events = false
       /\ In (Query.LogError "Community summaries file is empty.") events.
Proof.
  apply dump_event_inv in Hdump.
  destruct Hdump as [df [llm [G [_ [_ [_ [Hi [_ [-> Hw]]]]]]]]].
  rewrite index_cases in Hi.
  destruct (Nx.nodes _); [|discriminate]. injection Hi as <- <-.
  split; auto. split; auto. split; auto.
  intros LLMq handler answerer qargs. cbv zeta. unfold Query.main. simpl. auto.
Qed.

Hypothesis get_response_raises :
  forall llm prompt content, fst (get_response llm prompt content) = None.





End Facts.

(** *** A concrete environment

    Every collaborator returns; the model answers every request with
    one relationship, or raises on every request; sets are iterated
    backwards and the partition stub is the one of [DetectClaims]. *)

Definition sample_args : Args :=
  mkArgs "https://arxiv.org/pdf/2404.16130v1" "data/2404.16130v1.pdf" "output"
         "Qwen/Qwen2-1.5B-Instruct".

Definition answering (calls : nat) (prompt content : string) : option string * nat :=
  (Some ("Relationships:" ++ Pipeline.nl ++ "- Alice -> knows -> Bob")%string, S calls).

Definition raising (calls : nat) (prompt content : string) : option string * nat :=
  (None, S calls).

Definition sample_run
           (get_response : nat -> string -> string -> option string * nat)
           (pdf_there : bool) : list Event :=
  run DetectClaims.backwards DetectClaims.partition_stub nat (fun _ => inl 0)
      get_response (fun _ _ => inl tt) (fun _ => pdf_there)
      (fun _ => inl (Some ["chunk one"; "chunk two"]))
      (fun _ => inl tt) (fun _ _ => inl tt) (fun _ _ => inl tt) sample_args.

Lemma sample_dump :
  In (DumpJson [] "output/community_summaries.json") (sample_run raising true).
Proof. vm_compute. do 7 right. left. reflexivity. Qed.

Lemma setup_failure_witness :
  existsb is_work_event (sample_run answering false) = false
  /\ existsb is_critical (sample_run answering false) = true.
Proof.
  apply (setup_failure_does_no_work DetectClaims.backwards DetectClaims.partition_stub
           nat (fun _ => inl 0) answering (fun _ _ => inl tt) (fun _ => false)
           (fun _ => inl (Some ["chunk one"; "chunk two"]))
           (fun _ => inl tt) (fun _ _ => inl tt) (fun _ _ => inl tt) sample_args).
  left. reflexivity.
Defined.

Lemma nonempty_graph_witness :
  Nx.nodes (Pipeline.build_knowledge_graph
              (fst (Pipeline.extract_entities_relationships
                      nat answering ["chunk one"; "chunk two"] 0)))
  = ["Alice"; "Bob"]
  /\ In (LLMHandlerInit (model_name sample_args)) (sample_run answering true)
  /\ In (LogCritical ("Indexing pipeline failed: " ++ Pipeline.ATTRIBUTE_ERROR))
        (sample_run answering true)
  /\ existsb is_output_event (sample_run answering true) = false
  /\ existsb is_completed (sample_run answering true) = false.
Proof.
  split; [vm_compute; reflexivity|].
  apply (nonempty_graph_fails_run DetectClaims.backwards DetectClaims.partition_stub
           nat (fun _ => inl 0) answering (fun _ _ => inl tt) (fun _ => true)
           (fun _ => inl (Some ["chunk one"; "chunk two"]))
           (fun _ => inl tt) (fun _ _ => inl tt) (fun _ _ => inl tt)
           DetectClaims.rev_perm sample_args (Some ["chunk one"; "chunk two"]) 0).
  - right. reflexivity.
  - reflexivity.
  - reflexivity.
  - reflexivity.
  - reflexivity.
  - vm_compute. discriminate.
Defined.

Lemma indexed_summaries_witness :
  @nil Pipeline.CommunitySummaryRecord = []
  /\ "output/community_summaries.json" = summaries_path sample_args
  /\ In (WriteGml Nx.empty (graph_path sample_args)) (sample_run raising true)
  /\ forall (LLMq : Type) (handler : string -> LLMq + string)
            (answerer : string -> Query.Json -> LLMq -> string + string)
            (qargs : Query.Args),
       let events :=
         Query.main LLMq handler answerer qargs (Query.Loaded (summaries_json [])) in
       existsb Query.is_model_event events = false
       /\ In (Query.LogError "Community summaries file is empty.") events.
Proof.
  exact (indexed_summaries_stop_query DetectClaims.backwards DetectClaims.partition_stub
           nat (fun _ => inl 0) raising (fun _ _ => inl tt) (fun _ => true)
           (fun _ => inl (Some ["chunk one"; "chunk two"]))
           (fun _ => inl tt) (fun _ _ => inl tt) (fun _ _ => inl tt)
           DetectClaims.rev_perm
           sample_args [] "output/community_summaries.json" sample_dump).
Defined.


End IndexingFacts.

(** ** Further properties of parsing, building and detecting *)

Module PipelineMore.

Import Str Re Shape Pipeline.

Lemma finditer_from_at_bol s : forall bol skip m,
  In m (finditer_from bol skip s) ->
  exists before here rest,
    s = (before ++ here)%string /\ rel_pattern_at here = Some (m, rest)
    /\ match before with
       | EmptyString => bol = true
       | String _ _ => at_bol before = true
       end.
Proof.
  induction s as [|c s IH]; intros bol skip m H; simpl in H; [tauto|].
  assert (Hlater : forall k, In m (finditer_from (is_newline c) k s) ->
            exists before here rest,
              String c s = (before ++ here)%string
              /\ rel_pattern_at here = Some (m, rest)
              /\ match before with
                 | EmptyString => bol = true
                 | String _ _ => at_bol before = true
                 end).
  { intros k Hin. destruct (IH _ k m Hin) as [before [here [rest [-> [Hat Hb]]]]].
    exists (String c before), here, rest. repeat split; auto.
    destruct before; simpl; auto. }
  destruct skip as [|n]; [|eauto].
  destruct bol; [|eauto].
  destruct (rel_pattern_at (String c s)) as [[m' rest]|] eqn:E; [|eauto].
  destruct H as [<-|H]; [|eauto].
  exists EmptyString, (String c s), rest. auto.
Qed.

(** X3: every match that [finditer] returns sits in the text at the
    start of a line and has the shape of the pattern: white space, a
    dash, then three fields separated by arrows, each field a group
    that is not empty and holds no line break, with white space
    allowed around it (line breaks included); the match ends where a
    line ends. *)
Theorem finditer_match_shape (text : string) (m : Match)
  (Hin : In m (finditer text)) :
  exists before w0 w1 w2 w3 w4 w5 w6 rest,
    text = (before ++ w0 ++ "-" ++ w1 ++ group1 m ++ w2 ++ "->" ++ w3 ++ group2 m
            ++ w4 ++ "->" ++ w5 ++ group3 m ++ w6 ++ rest)%string
    /\ at_bol before = true /\ at_eol rest = true
    /\ all_space w0 = true /\ all_space w1 = true /\ all_space w2 = true
    /\ all_space w3 = true /\ all_space w4 = true /\ all_space w5 = true
    /\ all_space w6 = true
    /\ group1 m <> EmptyString /\ no_newline (group1 m) = true
    /\ group2 m <> EmptyString /\ no_newline (group2 m) = true
    /\ group3 m <> EmptyString /\ no_newline (group3 m) = true.
Proof.
  apply finditer_from_at_bol in Hin.
  destruct Hin as [before [here [rest [-> [Hat Hb]]]]].
  apply ShapeFacts.rel_pattern_at_shape in Hat.
  destruct Hat as [[w0 [w1 [w2 [w3 [w4 [w5 [w6 [-> Hw]]]]]]]] Hg].
  exists before, w0, w1, w2, w3, w4, w5, w6, rest.
  split; [reflexivity|]. split; [destruct before; auto|]. tauto.
Qed.

Lemma finditer_match_shape_witness :
  exists before w0 w1 w2 w3 w4 w5 w6 rest,
    ("Relationships:" ++ nl ++ "  - Alice ->  knows -> Bob ")%string =
      (before ++ w0 ++ "-" ++ w1 ++ "Alice" ++ w2 ++ "->" ++ w3 ++ "knows"
       ++ w4 ++ "->" ++ w5 ++ "Bob" ++ w6 ++ rest)%string
    /\ at_bol before = true /\ at_eol rest = true
    /\ all_space w0 = true /\ all_space w1 = true /\ all_space w2 = true
    /\ all_space w3 = true /\ all_space w4 = true /\ all_space w5 = true
    /\ all_space w6 = true
    /\ "Alice" <> EmptyString /\ no_newline "Alice" = true
    /\ "knows" <> EmptyString /\ no_newline "knows" = true
    /\ "Bob" <> EmptyString /\ no_newline "Bob" = true.
Proof.
  apply (finditer_match_shape
           ("Relationships:" ++ nl ++ "  - Alice ->  knows -> Bob ")%string
           (mkMatch "Alice" "knows" "Bob")).
  vm_compute. left. reflexivity.
Defined.

Lemma has_char_app c a b : has_char c (a ++ b) = has_char c a || has_char c b.
Proof.
  induction a as [|x a IH]; simpl; auto. rewrite IH. now rewrite orb_assoc.
Qed.

(** X5: a text without the character [>] has no match of the pattern,
    so a summary without an arrow contributes no triple even when it
    holds the marker. *)
Theorem no_arrow_no_triple (summary : string)
  (Hplain : has_char ">"%char summary = false) :
  finditer summary = [] /\ triples_of_summary summary = [].
Proof.
  assert (H : finditer summary = []).
  { destruct (finditer summary) as [|m ms] eqn:E; auto. exfalso.
    assert (Hin : In m (finditer summary)) by (rewrite E; now left).
    apply ShapeFacts.finditer_from_at in Hin.
    destruct Hin as [before [here [rest [-> Hat]]]].
    apply ShapeFacts.rel_pattern_at_shape in Hat.
    destruct Hat as [[w0 [w1 [w2 [w3 [w4 [w5 [w6 [-> _]]]]]]]] _].
    rewrite !has_char_app in Hplain. simpl in Hplain.
    repeat match goal with
           | H : _ || _ = false |- _ => apply orb_false_iff in H; destruct H
           end; congruence. }
  split; auto. unfold triples_of_summary. rewrite H.
  now destruct (contains "Relationships:" summary).
Qed.

Lemma no_arrow_witness :
  finditer ("Relationships:" ++ nl ++ "- none found")%string = []
  /\ triples_of_summary ("Relationships:" ++ nl ++ "- none found")%string = [].
Proof.
  apply (no_arrow_no_triple ("Relationships:" ++ nl ++ "- none found")%string).
  reflexivity.
Defined.

Lemma parsed_triples_without_sentinel elements :
  parsed_triples
    (filter (fun e => negb (String.eqb e EXTRACTION_SENTINEL)) elements)
  = parsed_triples elements.
Proof.
  induction elements as [|e es IH]; simpl; auto.
  destruct (String.eqb e EXTRACTION_SENTINEL) eqn:E; simpl.
  - apply String.eqb_eq in E. subst e. exact IH.
  - now rewrite IH.
Qed.

Section Extracted.
Variable LLM : Type.
Variable get_response : LLM -> string -> string -> option string * LLM.

(** X10: extraction and building together: the chunks whose call raised
    leave no trace in the graph, which is the graph built from the
    other elements alone. *)
Theorem failed_chunks_leave_no_trace (text_units : list string) (llm : LLM) :
  let elements := fst (extract_entities_relationships LLM get_response text_units llm) in
  build_knowledge_graph elements =
  build_knowledge_graph
    (filter (fun e => negb (String.eqb e EXTRACTION_SENTINEL)) elements).
Proof.
  cbv zeta. rewrite !BuildFacts.build_knowledge_graph_triples.
  now rewrite parsed_triples_without_sentinel.
Qed.
End Extracted.

Lemma NoDup_two {A : Type} (l : list A) (x y : A) :
  NoDup l -> In x l -> In y l -> x <> y -> 2 <= List.length l.
Proof.
  intros Hnd Hx Hy Hxy.
  assert (Hincl : incl [x; y] l) by (intros z [<-|[<-|[]]]; auto).
  assert (Hnd2 : NoDup [x; y]).
  { constructor; [simpl; intros [H|[]]; congruence|].
    constructor; [simpl; tauto | constructor]. }
  apply (NoDup_incl_length Hnd2 Hincl).
Qed.

(** X11: in a graph returned by [build_knowledge_graph] a connected
    component of one node is a node related to itself: every other
    component has at least two nodes. *)
Theorem built_components_not_trivial (element_summaries : list string)
  (component : list string)
  (Hin : In component (Nx.connected_components (build_knowledge_graph element_summaries))) :
  2 <= List.length component
  \/ exists v l, component = [v]
       /\ Nx.edge_label (build_knowledge_graph element_summaries) v v = Some l.
Proof.
  set (G := build_knowledge_graph element_summaries) in *.
  assert (Hwf : Nx.wf_graph G) by apply WfFacts.wf_build_knowledge_graph.
  destruct (ComponentFacts.connected_components_spec G Hwf) as [H1 _].
  rewrite Forall_forall in H1. destruct (H1 component Hin) as [v [Hv ->]].
  assert (Hself : In v (Nx.plain_bfs G v)) by (apply ComponentFacts.grow_incl; now left).
  assert (Hnd : NoDup (Nx.plain_bfs G v)) by apply ComponentFacts.plain_bfs_NoDup.
  assert (Hnb : exists y l, Nx.edge_label G v y = Some l).
  { unfold G in Hv |- *. rewrite BuildFacts.build_knowledge_graph_triples in Hv.
    apply BuildFacts.nodes_fold in Hv. destruct Hv as [[]|[t [Ht Hv]]].
    assert (He : exists l, Nx.edge_label (build_knowledge_graph element_summaries)
                             (source t) (target t) = Some l).
    { rewrite BuildFacts.build_knowledge_graph_triples, BuildFacts.edge_label_fold.
      destruct (BuildMore.last_writer_In _ _ _ t Ht (BuildMore.touches_self t)) as [t' ->].
      eauto. }
    destruct He as [l He]. destruct Hv as [->| ->].
    - eauto.
    - exists (source t), l. now apply Hwf. }
  destruct Hnb as [y [l Hy]].
  assert (Hyin : In y (Nx.plain_bfs G v)).
  { apply (ComponentFacts.plain_bfs_closed G v Hwf Hv v y Hself).
    apply WfFacts.adjacent_label. eauto. }
  destruct (string_dec v y) as [<-|Hne].
  - destruct (Nx.plain_bfs G v) as [|a [|b rest]] eqn:E.
    + destruct Hself.
    + right. exists v, l. destruct Hself as [->|[]]. auto.
    + left. simpl. lia.
  - left. now apply (NoDup_two _ v y).
Qed.

Lemma built_components_witness :
  2 <= List.length ["Eve"]
  \/ exists v l, ["Eve"] = [v]
       /\ Nx.edge_label (build_knowledge_graph DetectClaims.sample_summaries) v v = Some l.
Proof.
  apply (built_components_not_trivial DetectClaims.sample_summaries ["Eve"]).
  vm_compute. right. right. left. reflexivity.
Defined.

End PipelineMore.

(** ** When the query stage reaches the language model *)

Module QueryReach.

Import Query.

Section Reach.
Variable LLM : Type.
Variable LLMHandler : string -> LLM + string.
Variable generate_global_answer : string -> Json -> LLM -> string + string.

(** X18: the handler of the language model is built exactly when the
    summaries file loads to a value that is not empty and has a
    length; a missing file, a file that cannot be loaded, an empty
    value, and a value without length (true, a number) all end the
    run before; the answerer is called exactly when, moreover, the
    handler could be built. *)
Theorem model_reached_iff (args : Args) (file : SummariesFile) :
  let events := main LLM LLMHandler generate_global_answer args file in
  (In (LLMHandlerInit (model_name args)) events <->
   exists content n, file = Loaded content /\ truthy content = true
                     /\ len content = Some n)
  /\ (existsb is_model_event events = true <->
      In (LLMHandlerInit (model_name args)) events)
  /\ ((exists content, In (GenerateGlobalAnswer (query args) content) events) <->
      exists content n llm, file = Loaded content /\ truthy content = true
        /\ len content = Some n /\ LLMHandler (model_name args) = inl llm).
Proof.
  cbv zeta. unfold main.
  destruct file as [|e|content]; simpl;
    [| |destruct (truthy content) eqn:Et; simpl;
        [destruct (len content) as [n|] eqn:El; simpl;
         [destruct (LLMHandler (model_name args)) as [llm|e] eqn:Eh; simpl;
          [destruct (generate_global_answer (query args) content llm); simpl|]|]|]];
    unfold failed;
    (split; [|split]); (split; intros H);
    try reflexivity;
    try (simpl; tauto);
    try (simpl in H; repeat match goal with
                | H : exists _, _ |- _ => destruct H
                | H : _ /\ _ |- _ => destruct H
                | H : _ \/ _ |- _ => destruct H
                | H : False |- _ => destruct H
                end; congruence);
    try solve [exists content; simpl; tauto];
    try solve [exists content, n; auto];
    try solve [exists content, n, llm; auto].
Qed.

End Reach.

End QueryReach.
